(** * udtube: label encoding and CoNLL-U dataset assembly

    A shallow embedding of [conllu_datasets.py]: the two dataset classes
    [ConlluMapDataset] and [ConlluIterDataset], the [LabelEncoder] they fit,
    persist and apply, the file system they persist to, and the edit-script
    codec they call for lemma rules; of the reader [TextIterDataset]; and of
    [scripts/remove_mwe.py].

    Conventions.
    - A Python [str] is a Rocq [string]; comparison of strings is
      lexicographic on character codes ([String.compare]), the order Python
      and numpy sort strings by. A value that is a [str] or [None] is an
      [option string].
    - An exception is a value of [PyError]; a call that may raise returns
      [result A].
    - The file system is an explicit state, a finite map from paths, as they
      are written, to nodes, threaded through the constructors. For
      [scripts/remove_mwe.py], which truncates the file its sink path names,
      the file system has links: paths name files, and several paths may
      name one file.
    - [sklearn.preprocessing.LabelEncoder], [joblib], [os] and the [conllu]
      parser are libraries; they are modelled by their documented behaviour.
      The parser hands over sentences with their metadata and tokens; with
      [OVERRIDDEN_FIELD_PARSERS] the feats of a token are a string, or [None]
      for an empty column.
    - The module [edit_scripts] is not part of the sources at hand. The
      datasets are stated over any implementation of the interface they use
      ([EditScripts]); the codec itself is modelled in [EditScriptCodec]. *)

From Stdlib Require Import ZArith Ascii String OrderedTypeEx Sorted DecimalString.
From stdpp Require Import base option list gmap strings.

Local Open Scope Z_scope.
Local Open Scope nat_scope.

(** ** Exceptions and results *)

Inductive PyError : Type :=
  | ValueError          (* sklearn: "y contains previously unseen labels" *)
  | NotFittedError      (* sklearn: transform before fit *)
  | AttributeError      (* attribute never assigned, or looked up on [None] *)
  | FileNotFoundError
  | IsADirectoryError
  | NotADirectoryError
  | UnicodeDecodeError  (* a pickle opened as text *)
  | IndexError
  | KeyError
  | FileExistsError.

Inductive result (A : Type) : Type :=
  | Ok (a : A)
  | Raise (e : PyError).
Arguments Ok {A} a.
Arguments Raise {A} e.

#[global] Instance result_ret : MRet result := fun A a => Ok a.
#[global] Instance result_bind : MBind result := fun A B k r =>
  match r with
  | Ok a => k a
  | Raise e => Raise e
  end.

(** [[f(v) for v in l]], stopping at the first exception. *)
Fixpoint traverse {A B} (f : A -> result B) (l : list A) : result (list B) :=
  match l with
  | [] => Ok []
  | a :: l' => b ← f a; bs ← traverse f l'; Ok (b :: bs)
  end.

Definition is_ok {A} (r : result A) : bool :=
  match r with Ok _ => true | Raise _ => false end.

(** A label given to an encoder: a [str], or [None]. *)
Abbreviation Label := (option string).

(** ** sklearn.preprocessing.LabelEncoder

    [fit] stores the sorted distinct labels in [classes_], the strings in
    ascending order and [None], when it is among the labels, after them;
    [transform] maps every label to its position in [classes_] and raises
    [ValueError] when a label is not there; [inverse_transform] indexes
    [classes_]. *)

Module LabelEncoder.

(** The order of [classes_]. *)
Definition compare (a b : Label) : comparison :=
  match a, b with
  | Some x, Some y => String.compare x y
  | Some _, None => Lt
  | None, Some _ => Gt
  | None, None => Eq
  end.

Fixpoint insert_sorted (x : Label) (l : list Label) : list Label :=
  match l with
  | [] => [x]
  | y :: l' =>
      match compare x y with
      | Lt => x :: l
      | Eq => l
      | Gt => y :: insert_sorted x l'
      end
  end.

(** [_unique]: the sorted unique labels, missing values last. *)
Definition np_unique (y : list Label) : list Label :=
  foldr insert_sorted [] y.

(** Position of [v] in [uniques], the table of [_map_to_integer]. *)
Fixpoint index_of (v : Label) (uniques : list Label) : option nat :=
  match uniques with
  | [] => None
  | u :: us => if bool_decide (v = u) then Some 0 else S <$> index_of v us
  end.

Record t : Type := { classes_ : option (list Label) }.

(** [LabelEncoder()] *)
Definition new : t := {| classes_ := None |}.

Definition fit (self : t) (y : list Label) : t :=
  {| classes_ := Some (np_unique y) |}.

Definition _encode (uniques : list Label) (values : list Label)
  : result (list nat) :=
  traverse (fun v => match index_of v uniques with
                     | Some i => Ok i
                     | None => Raise ValueError
                     end) values.

Definition transform (self : t) (y : list Label) : result (list nat) :=
  match classes_ self with
  | None => Raise NotFittedError
  | Some uniques =>
      match y with
      | [] => Ok []
      | _ => _encode uniques y
      end
  end.

Definition inverse_transform (self : t) (y : list nat) : result (list Label) :=
  match classes_ self with
  | None => Raise NotFittedError
  | Some uniques =>
      if forallb (fun c => c <? length uniques) y
      then Ok (omap (fun c => uniques !! c) y)
      else Raise ValueError
  end.

End LabelEncoder.
(** ** The edit-script codec ([import edit_scripts]) *)

(** What [conllu_datasets.py] uses of the module: two classes constructed
    from a pair of strings, and [str] of their instances. *)
Class EditScripts : Type := {
  Script : Type;
  EditScript : string -> string -> Script;
  ReverseEditScript : string -> string -> Script;
  str : Script -> string
}.

(** Python's [str.lower]. *)
Class PyStr : Type := { lower : string -> string }.

Definition lower_ascii (c : ascii) : ascii :=
  let n := nat_of_ascii c in
  if (65 <=? n) && (n <=? 90) then ascii_of_nat (n + 32) else c.

(** [str.lower] on the ASCII letters, other characters unchanged; the
    instance the sample runs use. *)
Definition ascii_lower : PyStr :=
  {| lower := fun s => string_of_list_ascii (lower_ascii <$> list_ascii_of_string s) |}.

Module EditScriptCodec.

Section Chars.
Context {A : Type} `{EqDecision A}.

(** Modelled from the spec: the length of the longest common prefix of
    source and target (the codec's file [edit_scripts.py] is absent). *)
Fixpoint common_prefix (s t : list A) : nat :=
  match s, t with
  | x :: s', y :: t' => if decide (x = y) then S (common_prefix s' t') else 0
  | _, _ => 0
  end.

(** Modelled from the spec: the length of the longest common suffix,
    found independently of the prefix (absent [edit_scripts.py]). *)
Definition common_suffix (s t : list A) : nat :=
  common_prefix (reverse s) (reverse t).

(** Modelled from the spec: the suffix length [x] shrunk until prefix
    and suffix no longer overlap, [p + x <= m] (absent
    [edit_scripts.py]). *)
Fixpoint shrink (p m x : nat) : nat :=
  match x with
  | 0 => 0
  | S x' => if decide (p + x <= m) then x else shrink p m x'
  end.

(** Modelled from the spec: the middle segment [s[p : len(s) - x]]
    (absent [edit_scripts.py]). *)
Definition middle (p x : nat) (s : list A) : list A :=
  drop p (take (length s - x) s).

(** Modelled from the spec: the edit operations of a Script, "delete
    middle" and "insert replacement" (absent [edit_scripts.py]). *)
Inductive Op : Type :=
  | Delete (n : nat)
  | Insert (r : list A).

(** Modelled from the spec: a Script, the lengths of the unchanged
    prefix and suffix, the operations on the middle, and the direction
    (absent [edit_scripts.py]). *)
Record script : Type := {
  prefix_len : nat;
  suffix_len : nat;
  ops : list Op;
  reversed : bool
}.

(** Modelled from the spec: [compute] of the Forward variant of the
    edit-script codec, whose source file [edit_scripts.py] is absent.
    The script records the unchanged prefix and suffix lengths and a
    delete/insert pair for the differing middle, or no operation when
    source and target are equal. *)
Definition compute_forward (source target : list A) : script :=
  let p := common_prefix source target in
  let m := Nat.min (length source) (length target) in
  let x := shrink p m (common_suffix source target) in
  {| prefix_len := p;
     suffix_len := x;
     ops := if decide (source = target) then []
            else [Delete (length (middle p x source));
                  Insert (middle p x target)];
     reversed := false |}.

(** Modelled from the spec: [compute] of the Reverse variant, the same
    computation on the reversed strings with the direction recorded. *)
Definition compute_reverse (source target : list A) : script :=
  let sc := compute_forward (reverse source) (reverse target) in
  {| prefix_len := prefix_len sc;
     suffix_len := suffix_len sc;
     ops := ops sc;
     reversed := true |}.

(** Modelled from the spec: the operations of a Script run on a middle
    segment (absent [edit_scripts.py]). *)
Fixpoint run_ops (os : list Op) (mid : list A) : list A :=
  match os with
  | [] => mid
  | Delete n :: os' => run_ops os' (drop n mid)
  | Insert r :: os' => r ++ run_ops os' mid
  end.

(** Modelled from the spec: [apply] in the forward direction, with the
    split points clamped to the source's length (absent
    [edit_scripts.py]). *)
Definition apply_forward (sc : script) (source : list A) : list A :=
  let p := Nat.min (prefix_len sc) (length source) in
  let x := Nat.min (suffix_len sc) (length source - p) in
  take p source ++ run_ops (ops sc) (middle p x source)
    ++ drop (length source - x) source.

(** Modelled from the spec: [apply] of the edit-script codec (absent
    [edit_scripts.py]): the recorded middle segment of the source is
    replaced, the split points are clamped to the source's length, and a
    Reverse script is applied between two reversals. *)
Definition apply_chars (sc : script) (source : list A) : list A :=
  if reversed sc then reverse (apply_forward sc (reverse source))
  else apply_forward sc source.

End Chars.
Arguments Op : clear implicits.
Arguments script : clear implicits.

(** Modelled from the spec: the two directional variants of the codec
    (absent [edit_scripts.py]). *)
Inductive Variant : Type := Forward | Reverse.

(** Modelled from the spec: [compute(source, target) -> Script] on
    strings, for either variant of the absent codec. *)
Definition compute (v : Variant) (source target : string) : script ascii :=
  match v with
  | Forward =>
      compute_forward (list_ascii_of_string source) (list_ascii_of_string target)
  | Reverse =>
      compute_reverse (list_ascii_of_string source) (list_ascii_of_string target)
  end.

(** Modelled from the spec: [apply(Script, source) -> target] on strings,
    for the absent codec. *)
Definition apply (sc : script ascii) (source : string) : string :=
  string_of_list_ascii (apply_chars sc (list_ascii_of_string source)).

(** Decimal digits of a number. *)
Definition nat_str (n : nat) : string := NilZero.string_of_uint (Nat.to_uint n).

(** Modelled from the spec: one operation in the serialization of a
    Script (absent [edit_scripts.py]). *)
Definition op_str (o : Op ascii) : string :=
  match o with
  | Delete n => "-" +:+ nat_str n
  | Insert r => "+" +:+ string_of_list_ascii r
  end.

(** Modelled from the spec: the serialization of a Script to one string
    token; the spec fixes no format, this one lists direction, prefix
    length, suffix length and the operations. *)
Definition to_string (sc : script ascii) : string :=
  (if reversed sc then "R" else "F") +:+ nat_str (prefix_len sc)
    +:+ "," +:+ nat_str (suffix_len sc)
    +:+ String.concat "" ((fun o => "|" +:+ op_str o) <$> ops sc).

(** Modelled from the spec: the codec above as the module
    [edit_scripts] the datasets import, which is absent. *)
Definition impl : EditScripts := {|
  Script := script ascii;
  EditScript := compute Forward;
  ReverseEditScript := compute Reverse;
  str := to_string
|}.

End EditScriptCodec.

(** ** Corpus, tokens and the file system *)

(** A token as the parser hands it over: [tok["form"]], [tok["lemma"]] and
    [tok["upos"]] are the strings of the columns; [tok["feats"]] is parsed
    by [parse_nullable_value] ([OVERRIDDEN_FIELD_PARSERS]): the string of
    the column, or [None] when the column is empty or "_". *)
Record Token : Type := {
  form : string;
  lemma : string;
  upos : string;
  feats : Label
}.

(** [tok[key]] *)
Definition Token_getitem (tok : Token) (key : string) : result Label :=
  if String.eqb key "form" then Ok (Some (form tok))
  else if String.eqb key "lemma" then Ok (Some (lemma tok))
  else if String.eqb key "upos" then Ok (Some (upos tok))
  else if String.eqb key "feats" then Ok (feats tok)
  else Raise KeyError.

(** [v.lower()] of a value that may be [None]. *)
Definition lower_of `{PyStr} (v : Label) : result string :=
  match v with
  | Some s => Ok (lower s)
  | None => Raise AttributeError
  end.

(** A [conllu.TokenList]: the [text] entry of its metadata, when the
    sentence has one, and the tokens in order. *)
Record TokenList : Type := {
  metadata_text : option string;
  tokens : list Token
}.

(** [tk_list.metadata["text"]] *)
Definition metadata_getitem_text (tk_list : TokenList) : result string :=
  match metadata_text tk_list with
  | Some text => Ok text
  | None => Raise KeyError
  end.

(** [(sentence, uposes, lemma_rules, ufeats)] *)
Definition SentenceRecord : Type := string * list nat * list nat * list nat.

Inductive Content : Type :=
  | ConlluText (sentences : list TokenList)
  | Pickle (enc : LabelEncoder.t).

Inductive Node : Type :=
  | Dir
  | File (c : Content).

(** Paths are compared as written. *)
Abbreviation FS := (gmap string Node).

Module os.

(** [os.path.exists(p)] *)
Definition path_exists (fs : FS) (p : string) : bool :=
  bool_decide (is_Some (fs !! p)).

(** [p] without the "/"s it ends in. *)
Fixpoint rstrip_slash (p : string) : string :=
  match p with
  | EmptyString => EmptyString
  | String c p' =>
      match rstrip_slash p' with
      | EmptyString => if Ascii.eqb c "/" then EmptyString else String c EmptyString
      | s => String c s
      end
  end.

(** What stands before the last "/" of [p]; [None] when [p] has no "/". *)
Fixpoint before_last_slash (p : string) : option string :=
  match p with
  | EmptyString => None
  | String c p' =>
      match before_last_slash p' with
      | Some d => Some (String c d)
      | None => if Ascii.eqb c "/" then Some EmptyString else None
      end
  end.

(** The directory the entry [p] is made in: the path before the last "/"
    of [p], "/"s at the end of [p] aside; [None] when that is the current
    directory, and the empty path for the root. *)
Definition parent (p : string) : option string :=
  match before_last_slash (rstrip_slash p) with
  | Some d => if String.eqb d "." then None else Some d
  | None => None
  end.

(** [os.mkdir(p)]: the empty path and a path whose parent directory is
    missing raise [FileNotFoundError]. *)
Definition mkdir (fs : FS) (p : string) : result FS :=
  if String.eqb p "" then Raise FileNotFoundError
  else match fs !! p with
       | Some _ => Raise FileExistsError
       | None =>
           match parent p with
           | None | Some EmptyString => Ok (<[p := Dir]> fs)
           | Some d =>
               match fs !! d with
               | Some Dir => Ok (<[p := Dir]> fs)
               | Some (File _) => Raise NotADirectoryError
               | None => Raise FileNotFoundError
               end
           end
       end.

(** [open(p)] for reading. *)
Definition open (fs : FS) (p : string) : result Content :=
  match fs !! p with
  | None => Raise FileNotFoundError
  | Some Dir => Raise IsADirectoryError
  | Some (File c) => Ok c
  end.

End os.

Module joblib.

(** [joblib.dump(enc, f'{dir}/{name}')] *)
Definition dump (fs : FS) (enc : LabelEncoder.t) (dir name : string) : result FS :=
  let p := dir +:+ "/" +:+ name in
  match fs !! dir with
  | None => Raise FileNotFoundError
  | Some (File _) => Raise NotADirectoryError
  | Some Dir =>
      match fs !! p with
      | Some Dir => Raise IsADirectoryError
      | _ => Ok (<[p := File (Pickle enc)]> fs)
      end
  end.

(** [joblib.load(f'{dir}/{name}')]: a path through a regular file raises
    [NotADirectoryError]; a text file does not unpickle. *)
Definition load (fs : FS) (dir name : string) : result LabelEncoder.t :=
  match fs !! dir with
  | None => Raise FileNotFoundError
  | Some (File _) => Raise NotADirectoryError
  | Some Dir =>
      match fs !! (dir +:+ "/" +:+ name) with
      | None => Raise FileNotFoundError
      | Some Dir => Raise IsADirectoryError
      | Some (File (Pickle enc)) => Ok enc
      | Some (File (ConlluText _)) => Raise KeyError
      end
  end.

End joblib.

(** [conllu.parse_incr(f, ...)] run to the end of the file. *)
Definition parse_incr (f : Content) : result (list TokenList) :=
  match f with
  | ConlluText dt => Ok dt
  | Pickle _ => Raise UnicodeDecodeError
  end.

(** [self.name], an attribute that may never have been assigned. *)
Definition attr {A} (a : option A) : result A :=
  match a with
  | Some x => Ok x
  | None => Raise AttributeError
  end.

(** A [for] loop whose body may raise. *)
Fixpoint for_each {S A} (body : S -> A -> result S) (l : list A) (s : S) : result S :=
  match l with
  | [] => Ok s
  | a :: l' => s' ← body s a; for_each body l' s'
  end.

(** [bool(s)] for a string. *)
Definition truthy (s : string) : bool := negb (String.eqb s "").

(** [x in classes] *)
Definition py_in (x : Label) (classes : list Label) : bool :=
  bool_decide (x ∈ classes).

(** ** class ConlluMapDataset *)

Module ConlluMapDataset.

Definition PAD_TAG : string := "[PAD]".

Definition UPOS_CLASSES : list string :=
  [ "ADJ"; "ADP"; "ADV"; "AUX"; "CCONJ"; "DET"; "INTJ"; "NOUN"; "NUM";
    "PART"; "PRON"; "PROPN"; "PUNCT"; "SCONJ"; "SYM"; "VERB"; "X"; "_" ].

(** The instance attributes; [None] is an attribute not assigned. *)
Record t : Type := {
  path_name : string;
  conllu_file : string;
  reverse_edits : bool;
  upos_encoder : option LabelEncoder.t;
  ufeats_encoder : option LabelEncoder.t;
  lemma_encoder : option LabelEncoder.t;
  feats_classes : option (list Label);
  lemma_classes : option (list Label);
  data_set : list SentenceRecord
}.

Section Methods.
Context `{PyStr} `{EditScripts}.

(** [self.e_script] *)
Definition e_script (self : t) : string -> string -> Script :=
  if reverse_edits self then ReverseEditScript else EditScript.

(** The body of the loops of [_get_all_classes], for one token. *)
Definition _get_all_classes_tok (self : t) (lname : string)
    (classes : list Label) (tok : Token) : result (list Label) :=
  if negb (String.eqb lname "lemma") then
    v ← Token_getitem tok lname;
    if negb (py_in v classes) then Ok (classes ++ [v]) else Ok classes
  else
    v ← Token_getitem tok lname;
    target ← lower_of v;
    let lrule := Some (str (e_script self (lower (form tok)) target)) in
    if negb (py_in lrule classes) then Ok (classes ++ [lrule]) else Ok classes.

Definition _get_all_classes (self : t) (fs : FS) (lname : string)
  : result (list Label) :=
  f ← os.open fs (conllu_file self);
  dt ← parse_incr f;
  for_each (fun classes tk_list =>
              for_each (_get_all_classes_tok self lname) (tokens tk_list) classes)
           dt [].

Definition _fit_label_encoders (self : t) (fs : FS) : result (t * FS) :=
  upos0 ← attr (upos_encoder self);
  let upos_enc := LabelEncoder.fit upos0 (Some <$> (UPOS_CLASSES ++ [PAD_TAG])) in
  ufeats0 ← attr (ufeats_encoder self);
  fcs ← attr (feats_classes self);
  let ufeats_enc := LabelEncoder.fit ufeats0 (fcs ++ [Some PAD_TAG]) in
  lemma0 ← attr (lemma_encoder self);
  lcs ← attr (lemma_classes self);
  let lemma_enc := LabelEncoder.fit lemma0 (lcs ++ [Some PAD_TAG]) in
  let self' :=
    {| path_name := path_name self;
       conllu_file := conllu_file self;
       reverse_edits := reverse_edits self;
       upos_encoder := Some upos_enc;
       ufeats_encoder := Some ufeats_enc;
       lemma_encoder := Some lemma_enc;
       feats_classes := feats_classes self;
       lemma_classes := lemma_classes self;
       data_set := data_set self |} in
  fs0 ← (if negb (os.path_exists fs (path_name self))
         then os.mkdir fs (path_name self) else Ok fs);
  fs1 ← joblib.dump fs0 upos_enc (path_name self) "upos_encoder.joblib";
  fs2 ← joblib.dump fs1 ufeats_enc (path_name self) "ufeats_encoder.joblib";
  fs3 ← joblib.dump fs2 lemma_enc (path_name self) "lemma_encoder.joblib";
  Ok (self', fs3).

(** The inner loop of [_get_data]: the three lists grow by one entry per
    token. *)
Definition _get_data_tok (self : t)
    (acc : list Label * list Label * list Label) (tok : Token)
  : list Label * list Label * list Label :=
  let '(uposes, lemma_rules, ufeats) := acc in
  let l_rule := str (e_script self (lower (form tok)) (lower (lemma tok))) in
  (uposes ++ [Some (upos tok)], lemma_rules ++ [Some l_rule],
   ufeats ++ [feats tok]).

(** The body of the outer loop of [_get_data], for one sentence. *)
Definition _get_data_sentence (self : t) (tk_list : TokenList)
  : result SentenceRecord :=
  sentence ← metadata_getitem_text tk_list;
  let '(uposes, lemma_rules, ufeats) :=
    fold_left (_get_data_tok self) (tokens tk_list) ([], [], []) in
  upos_enc ← attr (upos_encoder self);
  uposes' ← LabelEncoder.transform upos_enc uposes;
  lemma_enc ← attr (lemma_encoder self);
  lemma_rules' ← LabelEncoder.transform lemma_enc lemma_rules;
  ufeats_enc ← attr (ufeats_encoder self);
  ufeats' ← LabelEncoder.transform ufeats_enc ufeats;
  Ok (sentence, uposes', lemma_rules', ufeats').

Definition _get_data (self : t) (fs : FS) : result (list SentenceRecord) :=
  f ← os.open fs (conllu_file self);
  dt ← parse_incr f;
  for_each (fun data tk_list =>
              r ← _get_data_sentence self tk_list; Ok (data ++ [r]))
           dt [].

Definition __init__ (fs : FS) (conllu_file : string) (reverse_edits : bool)
    (path_name : string) : result (t * FS) :=
  let self0 :=
    {| path_name := path_name;
       conllu_file := conllu_file;
       reverse_edits := reverse_edits;
       upos_encoder := None;
       ufeats_encoder := None;
       lemma_encoder := None;
       feats_classes := None;
       lemma_classes := None;
       data_set := [] |} in
  if truthy conllu_file then
    let self1 :=
      {| path_name := path_name;
         conllu_file := conllu_file;
         reverse_edits := reverse_edits;
         upos_encoder := Some LabelEncoder.new;
         ufeats_encoder := Some LabelEncoder.new;
         lemma_encoder := Some LabelEncoder.new;
         feats_classes := None;
         lemma_classes := None;
         data_set := [] |} in
    fcs ← _get_all_classes self1 fs "feats";
    lcs ← _get_all_classes self1 fs "lemma";
    let self2 :=
      {| path_name := path_name;
         conllu_file := conllu_file;
         reverse_edits := reverse_edits;
         upos_encoder := Some LabelEncoder.new;
         ufeats_encoder := Some LabelEncoder.new;
         lemma_encoder := Some LabelEncoder.new;
         feats_classes := Some fcs;
         lemma_classes := Some lcs;
         data_set := [] |} in
    '(self3, fs') ← _fit_label_encoders self2 fs;
    data ← _get_data self3 fs';
    Ok ({| path_name := path_name;
           conllu_file := conllu_file;
           reverse_edits := reverse_edits;
           upos_encoder := upos_encoder self3;
           ufeats_encoder := ufeats_encoder self3;
           lemma_encoder := lemma_encoder self3;
           feats_classes := feats_classes self3;
           lemma_classes := lemma_classes self3;
           data_set := data |}, fs')
  else
    Ok (self0, fs).

Definition __len__ (self : t) : nat := length (data_set self).

(** [self.data_set[idx]], list indexing with an integer. *)
Definition __getitem__ (self : t) (idx : Z) : result SentenceRecord :=
  let n := Z.of_nat (length (data_set self)) in
  let i := (if idx <? 0 then idx + n else idx)%Z in
  if ((0 <=? i) && (i <? n))%Z then
    match data_set self !! Z.to_nat i with
    | Some r => Ok r
    | None => Raise IndexError
    end
  else Raise IndexError.

End Methods.

End ConlluMapDataset.

(** ** class ConlluIterDataset *)

Module ConlluIterDataset.

(** The instance attributes; [conllu_file] is the file [__init__] opened,
    with what it holds. *)
Record t : Type := {
  conllu_file : option Content;
  upos_encoder : option LabelEncoder.t;
  ufeats_encoder : option LabelEncoder.t;
  lemma_encoder : option LabelEncoder.t;
  reverse_edits : bool
}.

Section Methods.
Context `{PyStr} `{EditScripts}.

Definition __init__ (fs : FS) (conllu_file : string) (reverse_edits : bool)
    (path_name : string) : result t :=
  f ← (if truthy conllu_file
       then h ← os.open fs conllu_file; Ok (Some h) else Ok None);
  '(u, uf, l) ←
    (if os.path_exists fs path_name then
       u ← joblib.load fs path_name "upos_encoder.joblib";
       uf ← joblib.load fs path_name "ufeats_encoder.joblib";
       l ← joblib.load fs path_name "lemma_encoder.joblib";
       Ok (Some u, Some uf, Some l)
     else Ok (None, None, None));
  Ok {| conllu_file := f;
        upos_encoder := u;
        ufeats_encoder := uf;
        lemma_encoder := l;
        reverse_edits := reverse_edits |}.

(** [self.e_script] *)
Definition e_script (self : t) : string -> string -> Script :=
  if reverse_edits self then ReverseEditScript else EditScript.

(** The inner loop of [_generator]. *)
Definition _generator_tok (self : t)
    (acc : list Label * list Label * list Label) (tok : Token)
  : list Label * list Label * list Label :=
  let '(uposes, lemma_rules, ufeats) := acc in
  let l_rule := str (e_script self (lower (form tok)) (lower (lemma tok))) in
  (uposes ++ [Some (upos tok)], lemma_rules ++ [Some l_rule],
   ufeats ++ [feats tok]).

(** The body of the outer loop of [_generator], up to its [yield]. *)
Definition _generator_sentence (self : t) (tk_list : TokenList)
  : result SentenceRecord :=
  sentence ← metadata_getitem_text tk_list;
  let '(uposes, lemma_rules, ufeats) :=
    fold_left (_generator_tok self) (tokens tk_list) ([], [], []) in
  upos_enc ← attr (upos_encoder self);
  uposes' ← LabelEncoder.transform upos_enc uposes;
  lemma_enc ← attr (lemma_encoder self);
  lemma_rules' ← LabelEncoder.transform lemma_enc lemma_rules;
  ufeats_enc ← attr (ufeats_encoder self);
  ufeats' ← LabelEncoder.transform ufeats_enc ufeats;
  Ok (sentence, uposes', lemma_rules', ufeats').

(** A run of the generator: the records it yields, in order, and the
    exception that ends it, if one does. *)
Definition Run : Type := list SentenceRecord * option PyError.

Fixpoint _generator (self : t) (dt : list TokenList) : Run :=
  match dt with
  | [] => ([], None)
  | tk_list :: dt' =>
      match _generator_sentence self tk_list with
      | Raise e => ([], Some e)
      | Ok r => let '(rs, e) := _generator self dt' in (r :: rs, e)
      end
  end.

(** The first [for] loop over a freshly constructed instance: [__iter__]
    and the generator it returns consumed to its end. The generator reads
    [self.conllu_file], the one file [__init__] opened, so a later loop
    over the same instance does not start over at the first sentence;
    later loops are not modelled. *)
Definition __iter__ (self : t) : result Run :=
  f ← attr (conllu_file self);
  match parse_incr f with
  | Raise e => Ok ([], Some e)
  | Ok dt => Ok (_generator self dt)
  end.

End Methods.

End ConlluIterDataset.

(** ** Notions used in the statements *)

(** The order strings are sorted by. *)
Definition str_lt (a b : string) : Prop := String.compare a b = Lt.

(** The order of the labels in a fitted encoder: strings in their order,
    [None] after every string. *)
Definition label_lt (a b : Label) : Prop := LabelEncoder.compare a b = Lt.

(** The distinct labels of a sequence in the order they are first met. *)
Fixpoint first_seen (l : list Label) : list Label :=
  match l with
  | [] => []
  | x :: l' => x :: filter (λ y, y ≠ x) (first_seen l')
  end.

(** All tokens of a corpus, sentence after sentence. *)
Definition all_tokens (dt : list TokenList) : list Token :=
  concat (tokens <$> dt).

(** The corpus a path reads as. *)
Definition read_corpus (fs : FS) (p : string) : result (list TokenList) :=
  f ← os.open fs p; parse_incr f.

(** A record carries the sentence's text and one code per token in each of
    its three sequences. *)
Definition record_of (tk_list : TokenList) (r : SentenceRecord) : Prop :=
  let '(sentence, uposes, lemma_rules, ufeats) := r in
  metadata_text tk_list = Some sentence
  ∧ length uposes = length (tokens tk_list)
  ∧ length lemma_rules = length (tokens tk_list)
  ∧ length ufeats = length (tokens tk_list).

(** No vocabulary file is stored under the namespace [p]. *)
Definition no_vocabularies (fs : FS) (p : string) : Prop :=
  fs !! (p +:+ "/" +:+ "upos_encoder.joblib") = None
  ∧ fs !! (p +:+ "/" +:+ "ufeats_encoder.joblib") = None
  ∧ fs !! (p +:+ "/" +:+ "lemma_encoder.joblib") = None.

(** [encode] and [decode] of one label with a fitted encoder. *)
Definition encode (enc : LabelEncoder.t) (label : Label) : result nat :=
  codes ← LabelEncoder.transform enc [label];
  match codes with
  | [c] => Ok c
  | _ => Raise ValueError
  end.

Definition decode (enc : LabelEncoder.t) (code : nat) : result Label :=
  labels ← LabelEncoder.inverse_transform enc [code];
  match labels with
  | [l] => Ok l
  | _ => Raise ValueError
  end.

(** The attributes of a [ConlluMapDataset] built from a corpus file:
    encoders fitted on the closed UPOS list and on the class lists [fcs] and
    [lcs], each with the pad tag appended, and the buffered records. *)
Definition fitted (path_name conllu_file : string) (reverse_edits : bool)
    (fcs lcs : list Label) (data : list SentenceRecord) : ConlluMapDataset.t :=
  {| ConlluMapDataset.path_name := path_name;
     ConlluMapDataset.conllu_file := conllu_file;
     ConlluMapDataset.reverse_edits := reverse_edits;
     ConlluMapDataset.upos_encoder :=
       Some (LabelEncoder.fit LabelEncoder.new
               (Some <$> (ConlluMapDataset.UPOS_CLASSES
                            ++ [ConlluMapDataset.PAD_TAG])));
     ConlluMapDataset.ufeats_encoder :=
       Some (LabelEncoder.fit LabelEncoder.new
               (fcs ++ [Some ConlluMapDataset.PAD_TAG]));
     ConlluMapDataset.lemma_encoder :=
       Some (LabelEncoder.fit LabelEncoder.new
               (lcs ++ [Some ConlluMapDataset.PAD_TAG]));
     ConlluMapDataset.feats_classes := Some fcs;
     ConlluMapDataset.lemma_classes := Some lcs;
     ConlluMapDataset.data_set := data |}.

(** The attributes of a [ConlluMapDataset] built without a corpus file. *)
Definition empty_dataset (path_name conllu_file : string) (reverse_edits : bool)
  : ConlluMapDataset.t :=
  {| ConlluMapDataset.path_name := path_name;
     ConlluMapDataset.conllu_file := conllu_file;
     ConlluMapDataset.reverse_edits := reverse_edits;
     ConlluMapDataset.upos_encoder := None;
     ConlluMapDataset.ufeats_encoder := None;
     ConlluMapDataset.lemma_encoder := None;
     ConlluMapDataset.feats_classes := None;
     ConlluMapDataset.lemma_classes := None;
     ConlluMapDataset.data_set := [] |}.

(** ** Sample data *)

Module Sample.

Definition running : Token :=
  {| form := "Running"; lemma := "run"; upos := "VERB"; feats := Some "Tense=Pres" |}.
Definition fast : Token :=
  {| form := "fast"; lemma := "fast"; upos := "ADV"; feats := Some "Degree=Pos" |}.
Definition foo : Token :=
  {| form := "etc"; lemma := "etc"; upos := "FOO"; feats := Some "Degree=Pos" |}.

Definition corpus : list TokenList :=
  [ {| metadata_text := Some "Running fast"; tokens := [running; fast] |} ].

Definition fs : FS := {[ "train.conllu" := File (ConlluText corpus) ]}.

Definition odd_corpus : list TokenList :=
  [ {| metadata_text := Some "Running etc"; tokens := [running; foo] |} ].

Definition odd_fs : FS := {[ "odd.conllu" := File (ConlluText odd_corpus) ]}.

(** What [ConlluMapDataset("train.conllu")] builds from [fs], with the
    codec above and the Forward variant. *)
Definition fcs : list Label := [Some "Tense=Pres"; Some "Degree=Pos"].
Definition lcs : list Label := [Some "F3,0|-4|+"; Some "F4,0"].
Definition data : list SentenceRecord :=
  [("Running fast", [15; 2], [0; 1], [1; 0])].

Definition trained : ConlluMapDataset.t :=
  fitted "UDTube" "train.conllu" false fcs lcs data.

Definition trained_fs : FS :=
  <["UDTube/lemma_encoder.joblib" :=
      File (Pickle (LabelEncoder.fit LabelEncoder.new (lcs ++ [Some "[PAD]"])))]>
  (<["UDTube/ufeats_encoder.joblib" :=
      File (Pickle (LabelEncoder.fit LabelEncoder.new (fcs ++ [Some "[PAD]"])))]>
  (<["UDTube/upos_encoder.joblib" :=
      File (Pickle (LabelEncoder.fit LabelEncoder.new
                      (Some <$> (ConlluMapDataset.UPOS_CLASSES ++ ["[PAD]"]))))]>
  (<["UDTube" := Dir]> fs))).

(** What [ConlluIterDataset("train.conllu")] then loads from
    [trained_fs]. *)
Definition streaming : ConlluIterDataset.t :=
  {| ConlluIterDataset.conllu_file := Some (ConlluText corpus);
     ConlluIterDataset.upos_encoder := ConlluMapDataset.upos_encoder trained;
     ConlluIterDataset.ufeats_encoder := ConlluMapDataset.ufeats_encoder trained;
     ConlluIterDataset.lemma_encoder := ConlluMapDataset.lemma_encoder trained;
     ConlluIterDataset.reverse_edits := false |}.

(** What [ConlluIterDataset("train.conllu")] is when nothing was stored. *)
Definition unfitted : ConlluIterDataset.t :=
  {| ConlluIterDataset.conllu_file := Some (ConlluText corpus);
     ConlluIterDataset.upos_encoder := None;
     ConlluIterDataset.ufeats_encoder := None;
     ConlluIterDataset.lemma_encoder := None;
     ConlluIterDataset.reverse_edits := false |}.

(** The attributes when [__init__] calls [_fit_label_encoders]: fresh
    encoders and the class lists found in the corpus. *)
Definition before_fit (file : string) (fcs lcs : list Label)
  : ConlluMapDataset.t :=
  {| ConlluMapDataset.path_name := "UDTube";
     ConlluMapDataset.conllu_file := file;
     ConlluMapDataset.reverse_edits := false;
     ConlluMapDataset.upos_encoder := Some LabelEncoder.new;
     ConlluMapDataset.ufeats_encoder := Some LabelEncoder.new;
     ConlluMapDataset.lemma_encoder := Some LabelEncoder.new;
     ConlluMapDataset.feats_classes := Some fcs;
     ConlluMapDataset.lemma_classes := Some lcs;
     ConlluMapDataset.data_set := [] |}.

Definition odd_lcs : list Label := [Some "F3,0|-4|+"; Some "F3,0"].

(** A namespace directory without vocabulary files. *)
Definition bare_fs : FS := <["UDTube" := Dir]> fs.

End Sample.

(** ** class TextIterDataset *)

Module TextIterDataset.

(** What a path holds, for a reader of plain text: a directory, or a file
    with its lines. *)
Inductive TextNode : Type :=
  | TextDir
  | TextFile (lines : list string).

(** A file object opened for reading: the lines not read yet, and whether
    it has been closed. *)
Record FileObj : Type := {
  unread : list string;
  closed : bool
}.

(** The instance attributes. [__iter__] returns [self.tf] itself, so the
    state of every iterator over the dataset is the state of this one file
    object. *)
Record t : Type := { tf : option FileObj }.

(** [open(text_file)] *)
Definition open (fs : gmap string TextNode) (p : string) : result FileObj :=
  match fs !! p with
  | None => Raise FileNotFoundError
  | Some TextDir => Raise IsADirectoryError
  | Some (TextFile lines) => Ok {| unread := lines; closed := false |}
  end.

Definition __init__ (fs : gmap string TextNode) (text_file : string) : result t :=
  if truthy text_file then
    f ← open fs text_file; Ok {| tf := Some f |}
  else Ok {| tf := None |}.

(** [__iter__]: the attribute [self.tf] must exist. *)
Definition __iter__ (self : t) : result FileObj := attr (tf self).

(** The outcome of one [next(it)]. *)
Inductive Next : Type :=
  | Yield (line : string)
  | StopIteration
  | Raised (e : PyError).

(** [next(self.tf)]: a closed file raises [ValueError], an exhausted one
    stops, otherwise the next line is read. *)
Definition __next__ (self : t) : Next * t :=
  match tf self with
  | None => (Raised AttributeError, self)
  | Some f =>
      if closed f then (Raised ValueError, self)
      else match unread f with
           | [] => (StopIteration, self)
           | line :: rest =>
               (Yield line, {| tf := Some {| unread := rest; closed := false |} |})
           end
  end.

(** [__del__]: close the file if the attribute exists. *)
Definition __del__ (self : t) : t :=
  match tf self with
  | None => self
  | Some f => {| tf := Some {| unread := unread f; closed := true |} |}
  end.

(** A [for line in dataset] loop that the caller leaves after at most [n]
    lines: the lines read, how the iteration ended ([None] when the caller
    left), and the instance afterwards. *)
Fixpoint consume (n : nat) (self : t) : list string * option Next * t :=
  match n with
  | 0 => ([], None, self)
  | S n' =>
      match __next__ self with
      | (Yield line, self') =>
          let '(lines, stop, self'') := consume n' self' in
          (line :: lines, stop, self'')
      | (stop, self') => ([], Some stop, self')
      end
  end.

End TextIterDataset.

(** ** scripts/remove_mwe.py *)

Module remove_mwe.

(** [s.removesuffix(suffix)] *)
Definition removesuffix (s suffix : string) : string :=
  let l := list_ascii_of_string s in
  let x := list_ascii_of_string suffix in
  if bool_decide (x ≠ [] ∧ length x ≤ length l ∧ drop (length l - length x) l = x)
  then string_of_list_ascii (take (length l - length x) l)
  else s.

(** The name of the file [main] writes. *)
Definition sink_name (source : string) : string :=
  (removesuffix source ".conllu" +:+ "-no_mwe") +:+ ".conllu".

(** A file system with links: what each path names, several paths naming
    one file when they are links to it or other spellings of its path, and
    what each file holds. *)
Record Linked : Type := {
  names : gmap string nat;
  files : gmap nat Node
}.

(** What the path [p] holds. *)
Definition lookup_path (fs : Linked) (p : string) : option Node :=
  i ← names fs !! p; files fs !! i.

(** [open(p, "w")]: the file the path names is emptied; a path that names
    nothing gets a new, empty file, when the directory it is made in
    exists. The file opened is returned. *)
Definition open_w (fs : Linked) (p : string) : result (nat * Linked) :=
  match names fs !! p with
  | Some i =>
      match files fs !! i with
      | Some Dir => Raise IsADirectoryError
      | _ => Ok (i, {| names := names fs;
                       files := <[i := File (ConlluText [])]> (files fs) |})
      end
  | None =>
      let i := fresh (dom (files fs)) in
      let made := Ok (i, {| names := <[p := i]> (names fs);
                            files := <[i := File (ConlluText [])]> (files fs) |}) in
      if String.eqb p "" then Raise FileNotFoundError
      else match os.parent p with
           | None | Some EmptyString => made
           | Some d =>
               match lookup_path fs d with
               | Some Dir => made
               | Some (File _) => Raise NotADirectoryError
               | None => Raise FileNotFoundError
               end
           end
  end.

(** The corpus the path reads as. *)
Definition read (fs : Linked) (p : string) : result (list TokenList) :=
  match lookup_path fs p with
  | None => Raise FileNotFoundError
  | Some Dir => Raise IsADirectoryError
  | Some (File f) => parse_incr f
  end.

Section Main.

(** [token.is_mwe], a property of the tokens of [udtube.data.conllu], which
    is not part of the sources at hand. *)
Variable is_mwe : Token → bool.

(** The token list [main] prints for one it reads: the tokens that are not
    multiword tokens, under the same metadata. *)
Definition strip (tokenlist : TokenList) : TokenList :=
  {| metadata_text := metadata_text tokenlist;
     tokens := filter (λ token, is_mwe token = false) (tokens tokenlist) |}.

(** [main]: the file system afterwards and how the run ended. The sink is
    opened for writing before the source is read.
    [conllu.parse_from_path] belongs to [udtube.data.conllu], which is not
    part of the sources at hand; it is taken to read the corpus the path
    holds and to change no file. *)
Definition main (fs : Linked) (source : string) : Linked * result unit :=
  match open_w fs (sink_name source) with
  | Raise e => (fs, Raise e)
  | Ok (sink, fs1) =>
      match read fs1 source with
      | Raise e => (fs1, Raise e)
      | Ok dt =>
          ({| names := names fs1;
              files := <[sink := File (ConlluText (strip <$> dt))]> (files fs1) |},
           Ok ())
      end
  end.

End Main.

End remove_mwe.

(** ** Further notions used in the statements *)

(** The three paths the encoders are stored at under a namespace. *)
Definition upos_path (path_name : string) : string :=
  path_name +:+ "/" +:+ "upos_encoder.joblib".
Definition ufeats_path (path_name : string) : string :=
  path_name +:+ "/" +:+ "ufeats_encoder.joblib".
Definition lemma_path (path_name : string) : string :=
  path_name +:+ "/" +:+ "lemma_encoder.joblib".

(** The file system after the encoders of [ds] have been stored under
    [path_name]. *)
Definition stored (path_name : string) (ds : ConlluMapDataset.t) (fs : FS) : FS :=
  match ConlluMapDataset.upos_encoder ds,
        ConlluMapDataset.ufeats_encoder ds,
        ConlluMapDataset.lemma_encoder ds with
  | Some u, Some f, Some l =>
      <[lemma_path path_name := File (Pickle l)]>
        (<[ufeats_path path_name := File (Pickle f)]>
           (<[upos_path path_name := File (Pickle u)]>
              (<[path_name := Dir]> fs)))
  | _, _, _ => fs
  end.

(** The directory [path_name] can be made: the path is not empty, nothing
    is there, and its parent directory, when the path has one, exists. *)
Definition creatable (fs : FS) (path_name : string) : Prop :=
  path_name ≠ ""
  ∧ fs !! path_name = None
  ∧ match os.parent path_name with
    | None | Some EmptyString => True
    | Some d => fs !! d = Some Dir
    end.

(** The namespace can take the encoders: its path is a directory or can be
    made one, and none of the three encoder paths is a directory. *)
Definition namespace_writable (fs : FS) (path_name : string) : Prop :=
  (creatable fs path_name ∨ fs !! path_name = Some Dir)
  ∧ fs !! upos_path path_name ≠ Some Dir
  ∧ fs !! ufeats_path path_name ≠ Some Dir
  ∧ fs !! lemma_path path_name ≠ Some Dir.

(** The corpus file is none of the paths the encoders are stored at. *)
Definition apart (conllu_file path_name : string) : Prop :=
  conllu_file ≠ upos_path path_name
  ∧ conllu_file ≠ ufeats_path path_name
  ∧ conllu_file ≠ lemma_path path_name.

(** Every UPOS label of the corpus is one of the closed list, or the pad
    tag. *)
Definition upos_closed (dt : list TokenList) : Prop :=
  ∀ tok, tok ∈ all_tokens dt →
    upos tok ∈ ConlluMapDataset.UPOS_CLASSES ∨ upos tok = ConlluMapDataset.PAD_TAG.

(** Every sentence of the corpus has a text in its metadata. *)
Definition all_have_text (dt : list TokenList) : Prop :=
  ∀ tk_list, tk_list ∈ dt → is_Some (metadata_text tk_list).

(** Decoding the three code sequences of a record with the given encoders
    gives back the given labels. *)
Definition decodes_to (upos_enc lemma_enc ufeats_enc : option LabelEncoder.t)
    (uposes lemma_rules ufeats : list Label) (r : SentenceRecord) : Prop :=
  let '(_, u, l, f) := r in
  (enc ← attr upos_enc; LabelEncoder.inverse_transform enc u) = Ok uposes
  ∧ (enc ← attr lemma_enc; LabelEncoder.inverse_transform enc l) = Ok lemma_rules
  ∧ (enc ← attr ufeats_enc; LabelEncoder.inverse_transform enc f) = Ok ufeats.

(** All codes of a sequence are at most [n]. *)
Definition codes_le (n : nat) (codes : list nat) : Prop :=
  Forall (λ c, c ≤ n) codes.

(** The lemma rule of a token: [str(self.e_script(form.lower(),
    lemma.lower()))] for the directionality [rev]. *)
Definition lemma_rule `{PyStr} `{EditScripts} (rev : bool) (tok : Token) : Label :=
  Some (str ((if rev then ReverseEditScript else EditScript)
               (lower (form tok)) (lower (lemma tok)))).

(** A dataset with the encoders and the directionality of a streaming
    one. *)
Definition as_map (it : ConlluIterDataset.t) : ConlluMapDataset.t :=
  {| ConlluMapDataset.path_name := "";
     ConlluMapDataset.conllu_file := "";
     ConlluMapDataset.reverse_edits := ConlluIterDataset.reverse_edits it;
     ConlluMapDataset.upos_encoder := ConlluIterDataset.upos_encoder it;
     ConlluMapDataset.ufeats_encoder := ConlluIterDataset.ufeats_encoder it;
     ConlluMapDataset.lemma_encoder := ConlluIterDataset.lemma_encoder it;
     ConlluMapDataset.feats_classes := None;
     ConlluMapDataset.lemma_classes := None;
     ConlluMapDataset.data_set := [] |}.

(** ** Further sample data *)

Module Sample2.

Definition text_fs : gmap string TextIterDataset.TextNode :=
  {[ "input.txt" := TextIterDataset.TextFile ["Running fast"; "Run faster"] ]}.

(** A corpus whose second sentence has a feats label the sample
    vocabulary does not hold. *)
Definition late : Token :=
  {| form := "later"; lemma := "late"; upos := "ADV"; feats := Some "Degree=Cmp" |}.

Definition dev_corpus : list TokenList :=
  [ {| metadata_text := Some "Running fast";
       tokens := [Sample.running; Sample.fast] |};
    {| metadata_text := Some "later"; tokens := [late] |};
    {| metadata_text := Some "fast"; tokens := [Sample.fast] |} ].

Definition dev_fs : FS :=
  <["dev.conllu" := File (ConlluText dev_corpus)]> Sample.trained_fs.

Definition dev : ConlluIterDataset.t :=
  {| ConlluIterDataset.conllu_file := Some (ConlluText dev_corpus);
     ConlluIterDataset.upos_encoder := ConlluMapDataset.upos_encoder Sample.trained;
     ConlluIterDataset.ufeats_encoder := ConlluMapDataset.ufeats_encoder Sample.trained;
     ConlluIterDataset.lemma_encoder := ConlluMapDataset.lemma_encoder Sample.trained;
     ConlluIterDataset.reverse_edits := false |}.

(** A corpus with an empty feats column, which the parser hands over as
    [None], before a feats string. *)
Definition plain : Token :=
  {| form := "fast"; lemma := "fast"; upos := "ADV"; feats := None |}.
Definition marked : Token :=
  {| form := "yes"; lemma := "yes"; upos := "INTJ"; feats := Some "abc=Yes" |}.

Definition plain_corpus : list TokenList :=
  [ {| metadata_text := Some "fast yes"; tokens := [plain; marked] |} ].

Definition plain_fs : FS := {[ "plain.conllu" := File (ConlluText plain_corpus) ]}.

(** A namespace path that is a regular file. *)
Definition blocked_fs : FS :=
  <["UDTube" := File (ConlluText [])]> Sample.fs.

(** A multiword token, told by its form for the sample. *)
Definition vamonos : Token :=
  {| form := "vamonos"; lemma := "_"; upos := "_"; feats := None |}.

Definition is_mwe (token : Token) : bool := String.eqb (form token) "vamonos".

Definition mwe_corpus : list TokenList :=
  [ {| metadata_text := Some "vamonos";
       tokens := [vamonos; Sample.running; Sample.fast] |} ].

(** A source file and another file. *)
Definition mwe_fs : remove_mwe.Linked :=
  {| remove_mwe.names := {[ "es.conllu" := 0; "notes.txt" := 1 ]};
     remove_mwe.files := {[ 0 := File (ConlluText mwe_corpus);
                            1 := File (ConlluText []) ]} |}.

(** The same, with the sink path a link to the source file. *)
Definition linked_fs : remove_mwe.Linked :=
  {| remove_mwe.names := {[ "es.conllu" := 0; "es-no_mwe.conllu" := 0 ]};
     remove_mwe.files := {[ 0 := File (ConlluText mwe_corpus) ]} |}.

End Sample2.

(** * Properties *)

(** ** The order of strings and of labels *)

Lemma str_lt_trans a b c : str_lt a b → str_lt b c → str_lt a c.
Proof.
  unfold str_lt. intros Hab Hbc.
  apply String_as_OT.cmp_lt in Hab, Hbc. apply String_as_OT.cmp_lt.
  eapply String_as_OT.lt_trans; eassumption.
Qed.

Lemma str_lt_irrefl a : ¬ str_lt a a.
Proof.
  unfold str_lt. intros Haa. apply String_as_OT.cmp_lt in Haa.
  by apply String_as_OT.lt_not_eq in Haa.
Qed.

Lemma label_lt_trans a b c : label_lt a b → label_lt b c → label_lt a c.
Proof.
  unfold label_lt. destruct a as [a|], b as [b|], c as [c|]; simpl; try done.
  apply str_lt_trans.
Qed.

Lemma label_lt_irrefl a : ¬ label_lt a a.
Proof. unfold label_lt. destruct a as [a|]; simpl; [apply str_lt_irrefl | done]. Qed.

Lemma compare_Eq a b : LabelEncoder.compare a b = Eq ↔ a = b.
Proof.
  destruct a as [a|], b as [b|]; simpl; try (split; congruence).
  rewrite String_as_OT.cmp_eq. split; congruence.
Qed.

Lemma compare_Gt a b : LabelEncoder.compare a b = Gt ↔ label_lt b a.
Proof.
  unfold label_lt. destruct a as [a|], b as [b|]; simpl; try (split; congruence).
  rewrite (String.compare_antisym b a).
  destruct (String.compare a b); simpl; split; congruence.
Qed.

Lemma label_lt_asym a b : label_lt a b → ¬ label_lt b a.
Proof. intros Hab Hba. exact (label_lt_irrefl a (label_lt_trans _ _ _ Hab Hba)). Qed.

(** Between strings the order of labels is the order of strings, and
    [None] comes after every string. *)
Lemma label_lt_Some a b : label_lt (Some a) (Some b) ↔ str_lt a b.
Proof. done. Qed.

Lemma label_lt_None a : label_lt (Some a) None.
Proof. done. Qed.

(** ** The sorted unique labels *)

Section Unique.
Import LabelEncoder.

Lemma elem_of_insert_sorted x y l : y ∈ insert_sorted x l ↔ y = x ∨ y ∈ l.
Proof.
  induction l as [|z l IH]; simpl.
  - rewrite list_elem_of_singleton, elem_of_nil. tauto.
  - destruct (compare x z) eqn:E.
    + apply compare_Eq in E as ->. rewrite elem_of_cons. tauto.
    + rewrite !elem_of_cons. tauto.
    + rewrite !elem_of_cons, IH. tauto.
Qed.

Lemma elem_of_np_unique y l : y ∈ np_unique l ↔ y ∈ l.
Proof.
  unfold np_unique. induction l as [|x l IH]; simpl; [done|].
  rewrite elem_of_insert_sorted, IH, elem_of_cons. tauto.
Qed.

Lemma insert_sorted_sorted x l :
  StronglySorted label_lt l → StronglySorted label_lt (insert_sorted x l).
Proof.
  induction 1 as [|z l Hl IH Hz]; simpl.
  - repeat constructor.
  - destruct (compare x z) eqn:E.
    + by constructor.
    + constructor; [by constructor|].
      constructor; [done|].
      eapply Forall_impl; [exact Hz|]. intros w Hw. by eapply label_lt_trans.
    + constructor; [done|].
      apply Forall_forall. intros w Hw.
      apply elem_of_insert_sorted in Hw as [->|Hw].
      * by apply compare_Gt.
      * by eapply Forall_forall in Hz.
Qed.

Lemma np_unique_sorted l : StronglySorted label_lt (np_unique l).
Proof.
  unfold np_unique. induction l; simpl; [constructor|].
  by apply insert_sorted_sorted.
Qed.

End Unique.

(** ** LabelEncoder *)

Section Encoder.
Import LabelEncoder.

Lemma index_of_lookup v l i : index_of v l = Some i → l !! i = Some v.
Proof.
  revert i. induction l as [|u l IH]; intros i; simpl; [done|].
  case_bool_decide as Hvu.
  - subst. by intros [= <-].
  - destruct (index_of v l) as [k|]; simpl; [|done].
    intros [= <-]. simpl. by apply IH.
Qed.

Lemma index_of_None v l : index_of v l = None ↔ v ∉ l.
Proof.
  induction l as [|u l IH]; simpl.
  - split; [intros _; apply not_elem_of_nil | done].
  - rewrite not_elem_of_cons. case_bool_decide as Hvu.
    + split; [done | intros [? _]; done].
    + destruct (index_of v l); simpl.
      * split; [done|]. intros [_ Hv]. by apply IH in Hv.
      * split; [|done]. intros _. split; [done | by apply IH].
Qed.

Lemma index_of_elem v l : v ∈ l → ∃ i, index_of v l = Some i ∧ i < length l.
Proof.
  intros Hv. destruct (index_of v l) as [i|] eqn:E.
  - exists i. split; [done|]. apply index_of_lookup in E.
    by eapply lookup_lt_Some.
  - by apply index_of_None in E.
Qed.

(** In a sorted table the positions follow the order of the labels. *)
Lemma index_of_sorted l a b i j :
  StronglySorted label_lt l →
  index_of a l = Some i → index_of b l = Some j →
  (i < j ↔ label_lt a b).
Proof.
  intros Hs. revert i j.
  induction Hs as [|u l Hl IH Hu]; intros i j; simpl; [done|].
  case_bool_decide as Ha; case_bool_decide as Hb.
  - subst. intros [= <-] [= <-]. split; [lia|].
    intros Hlt. by apply label_lt_irrefl in Hlt.
  - subst. intros [= <-]. destruct (index_of b l) as [k|] eqn:Eb; simpl; [|done].
    intros [= <-]. split; [intros _ | lia].
    apply index_of_lookup, list_elem_of_lookup_2 in Eb.
    by eapply Forall_forall in Hu.
  - subst. destruct (index_of a l) as [k|] eqn:Ea; simpl; [|done].
    intros [= <-] [= <-]. split; [lia|]. intros Hlt.
    apply index_of_lookup, list_elem_of_lookup_2 in Ea.
    eapply Forall_forall in Hu; [|exact Ea]. by apply label_lt_asym in Hlt.
  - destruct (index_of a l) as [k|] eqn:Ea; simpl; [|done].
    destruct (index_of b l) as [k'|] eqn:Eb; simpl; [|done].
    intros [= <-] [= <-]. rewrite <- (IH k k') by done. lia.
Qed.

Lemma _encode_length uniques values codes :
  _encode uniques values = Ok codes → length codes = length values.
Proof.
  unfold _encode. revert codes.
  induction values as [|v values IH]; intros codes; simpl.
  - by intros [= <-].
  - destruct (index_of v uniques); simpl; [|done].
    destruct (traverse _ values) as [cs|]; simpl; [|done].
    intros [= <-]. simpl. f_equal. by apply IH.
Qed.

Lemma transform_length enc y codes :
  transform enc y = Ok codes → length codes = length y.
Proof.
  unfold transform. destruct (classes_ enc) as [uniques|]; [|done].
  destruct y as [|v y].
  - by intros [= <-].
  - apply _encode_length.
Qed.

Lemma _encode_unseen uniques pre v post :
  v ∉ uniques → _encode uniques (pre ++ v :: post) = Raise ValueError.
Proof.
  intros Hv. apply index_of_None in Hv. unfold _encode.
  induction pre as [|w pre IH]; simpl.
  - by rewrite Hv.
  - destruct (index_of w uniques); simpl; [|done]. by rewrite IH.
Qed.

Lemma transform_one enc uniques v :
  classes_ enc = Some uniques →
  transform enc [v] =
    match index_of v uniques with Some i => Ok [i] | None => Raise ValueError end.
Proof.
  intros E. unfold transform, _encode. rewrite E. simpl.
  by destruct (index_of v uniques).
Qed.

End Encoder.
(** ** Results and loops *)

Lemma bind_Ok {A B} (x : result A) (k : A → result B) b :
  x ≫= k = Ok b ↔ ∃ a, x = Ok a ∧ k a = Ok b.
Proof.
  destruct x as [a|e]; simpl; split.
  - intros Hk. by exists a.
  - by intros (a' & [= <-] & Hk).
  - done.
  - by intros (a' & [=] & _).
Qed.

Ltac inv_bind H :=
  repeat match type of H with
    | _ ≫= _ = Ok _ =>
        let a := fresh "a" in
        let Ha := fresh "Ha" in
        apply bind_Ok in H as (a & Ha & H)
    end.

Lemma attr_Ok {A} (o : option A) a : attr o = Ok a ↔ o = Some a.
Proof. destruct o; simpl; split; congruence. Qed.

Lemma for_each_pure {S A} (f : S → A → S) l s :
  for_each (λ s a, Ok (f s a)) l s = Ok (fold_left f l s).
Proof. revert s. induction l as [|a l IH]; intros s; simpl; [done|]. apply IH. Qed.

Lemma for_each_ext {S A} (f g : S → A → result S) l s :
  (∀ s a, f s a = g s a) → for_each f l s = for_each g l s.
Proof.
  intros Hfg. revert s. induction l as [|a l IH]; intros s; simpl; [done|].
  rewrite Hfg. destruct (g s a); simpl; [apply IH | done].
Qed.

(** A loop that appends one computed entry per element. *)
Lemma for_each_collect {A B} (g : A → result B) l acc res :
  for_each (λ data a, r ← g a; Ok (data ++ [r])) l acc = Ok res ↔
  ∃ rs, res = acc ++ rs ∧ Forall2 (λ a r, g a = Ok r) l rs.
Proof.
  revert acc. induction l as [|a l IH]; intros acc; simpl.
  - split.
    + intros [= <-]. exists []. by rewrite app_nil_r.
    + intros (rs & -> & Hrs). apply Forall2_nil_inv_l in Hrs as ->.
      by rewrite app_nil_r.
  - rewrite bind_Ok. split.
    + intros (s' & Hs' & Hres). apply bind_Ok in Hs' as (r & Hr & [= <-]).
      apply IH in Hres as (rs & -> & Hrs).
      exists (r :: rs). split; [by rewrite <- app_assoc | by constructor].
    + intros (rs & -> & Hrs).
      apply Forall2_cons_inv_l in Hrs as (r & rs' & Hr & Hrs' & ->).
      exists (acc ++ [r]). rewrite Hr. split; [done|].
      apply IH. exists rs'. split; [by rewrite <- app_assoc | done].
Qed.

Lemma fold_left_concat {S A} (f : S → A → S) (ls : list (list A)) s :
  fold_left (λ s l, fold_left f l s) ls s = fold_left f (concat ls) s.
Proof.
  revert s. induction ls as [|l ls IH]; intros s; simpl; [done|].
  by rewrite fold_left_app, IH.
Qed.
(** ** C8: labels not given to [fit] are rejected *)

(** C8. For every list of classes a [LabelEncoder] is fitted on and every
    label that is not among them, encoding the label raises the encoder's
    error for unseen labels ([ValueError]) instead of producing a code, also
    when the label stands anywhere in a longer sequence being encoded. *)
Theorem unseen_label_rejected (classes : list Label) (s : Label) :
  s ∉ classes →
  encode (LabelEncoder.fit LabelEncoder.new classes) s = Raise ValueError
  ∧ ∀ pre post,
      LabelEncoder.transform (LabelEncoder.fit LabelEncoder.new classes)
        (pre ++ s :: post) = Raise ValueError.
Proof.
  intros Hs.
  assert (Hu : s ∉ LabelEncoder.np_unique classes)
    by (by rewrite elem_of_np_unique).
  assert (Ht : ∀ pre post,
      LabelEncoder.transform (LabelEncoder.fit LabelEncoder.new classes)
        (pre ++ s :: post) = Raise ValueError).
  { intros pre post. unfold LabelEncoder.transform. simpl.
    rewrite <- (_encode_unseen _ pre s post Hu).
    by destruct pre. }
  split; [|exact Ht].
  unfold encode. specialize (Ht [] []). simpl in Ht. by rewrite Ht.
Qed.

Lemma unseen_label_rejected_witness :
  (Some "FOO" ∉
     Some <$> (ConlluMapDataset.UPOS_CLASSES ++ [ConlluMapDataset.PAD_TAG]))
  ∧ encode (LabelEncoder.fit LabelEncoder.new
              (Some <$> (ConlluMapDataset.UPOS_CLASSES
                           ++ [ConlluMapDataset.PAD_TAG])))
      (Some "FOO") = Raise ValueError.
Proof.
  assert (Hfoo : Some "FOO" ∉
     Some <$> (ConlluMapDataset.UPOS_CLASSES ++ [ConlluMapDataset.PAD_TAG])).
  { apply index_of_None. reflexivity. }
  split; [exact Hfoo|].
  exact (proj1 (unseen_label_rejected _ (Some "FOO") Hfoo)).
Defined.

(** ** Paths *)

Lemma append_inj p a b : p +:+ a = p +:+ b → a = b.
Proof. induction p as [|c p IH]; simpl; [done|]. intros [= Hp]. by apply IH. Qed.

Lemma length_append p a : String.length (p +:+ a) = String.length p + String.length a.
Proof. induction p as [|c p IH]; simpl; [done|]. by rewrite IH. Qed.

Lemma append_ne p c a : p +:+ String c a ≠ p.
Proof.
  intros Heq. apply (f_equal String.length) in Heq.
  rewrite length_append in Heq. simpl in Heq. lia.
Qed.

(** ** Fitting and persisting the encoders *)

Section Fitting.
Context `{PyStr} `{EditScripts}.
Import ConlluMapDataset.

Lemma dump_Ok fs enc dir name fs' :
  joblib.dump fs enc dir name = Ok fs' →
  fs !! dir = Some Dir ∧ fs' = <[dir +:+ "/" +:+ name := File (Pickle enc)]> fs.
Proof.
  unfold joblib.dump. destruct (fs !! dir) as [[|c]|]; [|done|done].
  destruct (fs !! (dir +:+ "/" +:+ name)) as [[|c]|]; [done| |];
    by intros [= <-].
Qed.

Lemma load_insert fs enc dir name :
  fs !! dir = Some Dir →
  joblib.load (<[dir +:+ "/" +:+ name := File (Pickle enc)]> fs) dir name = Ok enc.
Proof.
  intros Hdir. unfold joblib.load.
  rewrite lookup_insert_ne by apply append_ne. rewrite Hdir.
  by rewrite lookup_insert_eq.
Qed.

Lemma load_insert_ne fs enc dir name name' :
  name ≠ name' →
  joblib.load (<[dir +:+ "/" +:+ name := File (Pickle enc)]> fs) dir name'
  = joblib.load fs dir name'.
Proof.
  intros Hne. unfold joblib.load.
  rewrite lookup_insert_ne by apply append_ne.
  rewrite (lookup_insert_ne _ (dir +:+ "/" +:+ name)); [done|].
  intros Heq. apply append_inj, append_inj in Heq. done.
Qed.

(** What a successful [_fit_label_encoders] leaves behind: the three
    encoders fitted on the class lists with the pad tag appended, the
    other attributes as they were, and the encoders stored under the
    namespace, which is a directory. *)
Lemma _fit_label_encoders_Ok self fs self' fs' :
  _fit_label_encoders self fs = Ok (self', fs') →
  ∃ fcs lcs,
    feats_classes self = Some fcs ∧ lemma_classes self = Some lcs
    ∧ self' =
        {| path_name := path_name self;
           conllu_file := conllu_file self;
           reverse_edits := reverse_edits self;
           upos_encoder :=
             Some (LabelEncoder.fit LabelEncoder.new
                     (Some <$> (UPOS_CLASSES ++ [PAD_TAG])));
           ufeats_encoder :=
             Some (LabelEncoder.fit LabelEncoder.new (fcs ++ [Some PAD_TAG]));
           lemma_encoder :=
             Some (LabelEncoder.fit LabelEncoder.new (lcs ++ [Some PAD_TAG]));
           feats_classes := feats_classes self;
           lemma_classes := lemma_classes self;
           data_set := data_set self |}
    ∧ fs' !! path_name self = Some Dir
    ∧ joblib.load fs' (path_name self) "upos_encoder.joblib"
      = Ok (LabelEncoder.fit LabelEncoder.new
              (Some <$> (UPOS_CLASSES ++ [PAD_TAG])))
    ∧ joblib.load fs' (path_name self) "ufeats_encoder.joblib"
      = Ok (LabelEncoder.fit LabelEncoder.new (fcs ++ [Some PAD_TAG]))
    ∧ joblib.load fs' (path_name self) "lemma_encoder.joblib"
      = Ok (LabelEncoder.fit LabelEncoder.new (lcs ++ [Some PAD_TAG])).
Proof.
  unfold _fit_label_encoders. intros Hfit. inv_bind Hfit.
  apply attr_Ok in Ha0, Ha2, Ha1, Ha3, Ha.
  apply dump_Ok in Ha5 as [Hd1 ->], Ha6 as [Hd2 ->], Ha7 as [Hd3 ->].
  injection Hfit as <- <-.
  exists a1, a3. split; [done|]. split; [done|]. split; [done|].
  split.
  { rewrite lookup_insert_ne; [done|]. apply append_ne. }
  split.
  { rewrite load_insert_ne by done. rewrite load_insert_ne by done.
    by apply load_insert. }
  split.
  { rewrite load_insert_ne by done. by apply load_insert. }
  by apply load_insert.
Qed.

End Fitting.

(** ** Construction of a ConlluMapDataset *)

Section Construction.
Context `{PyStr} `{EditScripts}.
Import ConlluMapDataset.

(** A successful construction from a corpus file, step by step. *)
Lemma __init___Ok fs file rev path ds fs' :
  truthy file = true →
  __init__ fs file rev path = Ok (ds, fs') →
  ∃ fcs lcs dt,
    _get_all_classes (fitted path file rev [] [] []) fs "feats" = Ok fcs
    ∧ _get_all_classes (fitted path file rev [] [] []) fs "lemma" = Ok lcs
    ∧ ds = fitted path file rev fcs lcs (data_set ds)
    ∧ read_corpus fs' file = Ok dt
    ∧ Forall2 (λ tk r, _get_data_sentence ds tk = Ok r) dt (data_set ds)
    ∧ fs' !! path = Some Dir
    ∧ joblib.load fs' path "upos_encoder.joblib" = attr (upos_encoder ds)
    ∧ joblib.load fs' path "ufeats_encoder.joblib" = attr (ufeats_encoder ds)
    ∧ joblib.load fs' path "lemma_encoder.joblib" = attr (lemma_encoder ds).
Proof.
  intros Htruthy. unfold __init__. rewrite Htruthy. intros Hinit.
  apply bind_Ok in Hinit as (fcs & Hfcs & Hinit).
  apply bind_Ok in Hinit as (lcs & Hlcs & Hinit).
  apply bind_Ok in Hinit as ([self3 fs3] & Hfit & Hinit).
  apply bind_Ok in Hinit as (data & Hdata & Hinit).
  injection Hinit as <- <-.
  apply _fit_label_encoders_Ok in Hfit
    as (fcs' & lcs' & [= <-] & [= <-] & -> & Hdir & Hu & Hf & Hl).
  simpl in *.
  unfold _get_data in Hdata. simpl in Hdata.
  apply bind_Ok in Hdata as (f & Hopen & Hdata).
  apply bind_Ok in Hdata as (dt & Hparse & Hdata).
  apply for_each_collect in Hdata as (rs & -> & Hrs). simpl in *.
  exists fcs, lcs, dt. split; [exact Hfcs|]. split; [exact Hlcs|].
  split; [done|]. split.
  { unfold read_corpus. by rewrite Hopen. }
  split; [exact Hrs|]. done.
Qed.

(** C10. Constructing the dataset with an empty corpus-file argument
    succeeds: the result holds no records, so its length is 0, none of the
    three encoders and neither class list is assigned, and the file system
    is left as it was, whatever the directionality and the namespace. *)
Theorem empty_file_prediction_mode (fs : FS) (rev : bool) (path : string) :
  __init__ fs "" rev path = Ok (empty_dataset path "" rev, fs)
  ∧ __len__ (empty_dataset path "" rev) = 0
  ∧ upos_encoder (empty_dataset path "" rev) = None
  ∧ ufeats_encoder (empty_dataset path "" rev) = None
  ∧ lemma_encoder (empty_dataset path "" rev) = None.
Proof. by repeat split. Qed.

End Construction.

(** ** The UPOS vocabulary *)

Section Upos.
Context `{PyStr} `{EditScripts}.
Import ConlluMapDataset.

Lemma upos_classes_ :
  LabelEncoder.np_unique (Some <$> (UPOS_CLASSES ++ [PAD_TAG])) =
    Some <$>
    [ "ADJ"; "ADP"; "ADV"; "AUX"; "CCONJ"; "DET"; "INTJ"; "NOUN"; "NUM";
      "PART"; "PRON"; "PROPN"; "PUNCT"; "SCONJ"; "SYM"; "VERB"; "X";
      "[PAD]"; "_" ].
Proof. reflexivity. Qed.

(** C1. Every dataset constructed from a corpus file has a UPOS encoder
    fitted on 18 distinct classes in which the pad tag has code 17, not
    18: code 18 belongs to the fitted class "_", which [encode] returns
    for it and which [decode] maps back to "_". *)
Theorem upos_pad_not_last fs file rev path ds fs' :
  truthy file = true →
  __init__ fs file rev path = Ok (ds, fs') →
  ∃ enc,
    upos_encoder ds = Some enc
    ∧ length (first_seen (Some <$> UPOS_CLASSES)) = 18
    ∧ "_" ∈ UPOS_CLASSES
    ∧ encode enc (Some "_") = Ok 18
    ∧ decode enc 18 = Ok (Some "_")
    ∧ encode enc (Some PAD_TAG) = Ok 17.
Proof.
  intros Htruthy Hinit.
  apply __init___Ok in Hinit as (fcs & lcs & dt & _ & _ & -> & _); [|done].
  eexists. split; [reflexivity|].
  split; [reflexivity|]. split; [|by repeat split].
  apply list_elem_of_In. simpl. tauto.
Qed.

(** C6, as the code has it. After fitting, the UPOS encoder holds exactly
    the fixed closed list of UPOS tags and the pad tag, whatever the
    corpus: a label is encodable with it if and only if it is a string of
    the closed list or the pad tag. *)
Theorem upos_vocabulary_closed self fs self' fs' :
  _fit_label_encoders self fs = Ok (self', fs') →
  ∃ enc,
    upos_encoder self' = Some enc
    ∧ enc = LabelEncoder.fit LabelEncoder.new (Some <$> (UPOS_CLASSES ++ [PAD_TAG]))
    ∧ ∀ u : Label,
        is_ok (encode enc u) = true ↔
        ∃ s, u = Some s ∧ (s ∈ UPOS_CLASSES ∨ s = PAD_TAG).
Proof.
  intros Hfit.
  apply _fit_label_encoders_Ok in Hfit as (fcs & lcs & _ & _ & -> & _).
  eexists. split; [reflexivity|]. split; [reflexivity|].
  intros u. unfold encode.
  rewrite (transform_one _
             (LabelEncoder.np_unique (Some <$> (UPOS_CLASSES ++ [PAD_TAG]))))
    by reflexivity.
  assert (Hin : u ∈ Some <$> (UPOS_CLASSES ++ [PAD_TAG]) ↔
                ∃ s, u = Some s ∧ (s ∈ UPOS_CLASSES ∨ s = PAD_TAG)).
  { rewrite list_elem_of_fmap. split.
    - intros (s & -> & Hs). exists s. split; [done|].
      apply elem_of_app in Hs as [Hs|Hs]; [by left | right].
      by apply list_elem_of_singleton in Hs.
    - intros (s & -> & Hs). exists s. split; [done|].
      apply elem_of_app. destruct Hs as [Hs | ->]; [by left | right].
      by apply list_elem_of_singleton. }
  rewrite <- Hin.
  destruct (LabelEncoder.index_of u _) as [i|] eqn:E; simpl.
  - split; [intros _ | done].
    apply index_of_lookup, list_elem_of_lookup_2 in E.
    by rewrite elem_of_np_unique in E.
  - split; [done|]. intros Hu. apply index_of_None in E.
    exfalso. apply E. by rewrite elem_of_np_unique.
Qed.

End Upos.

(** ** The sample corpus *)

Lemma sample_init :
  ConlluMapDataset.__init__ (H := ascii_lower)
    (H0 := EditScriptCodec.impl) Sample.fs "train.conllu" false "UDTube"
  = Ok (Sample.trained, Sample.trained_fs).
Proof. vm_compute. reflexivity. Qed.

Lemma upos_pad_not_last_witness :
  truthy "train.conllu" = true
  ∧ ∃ enc,
      ConlluMapDataset.upos_encoder Sample.trained = Some enc
      ∧ encode enc (Some "_") = Ok 18.
Proof.
  split; [reflexivity|].
  destruct (upos_pad_not_last (H := ascii_lower)
              (H0 := EditScriptCodec.impl) Sample.fs "train.conllu" false "UDTube"
              Sample.trained Sample.trained_fs eq_refl sample_init)
    as (enc & Henc & _ & _ & Hcode & _).
  exists enc. by split.
Defined.

(** ** Encoding one sentence *)

Section Sentences.
Context `{PyStr} `{EditScripts}.

Lemma _get_data_tok_fold self toks uposes lemma_rules ufeats :
  fold_left (ConlluMapDataset._get_data_tok self) toks (uposes, lemma_rules, ufeats)
  = (uposes ++ ((λ tok, Some (upos tok)) <$> toks),
     lemma_rules ++
       ((λ tok, Some (str (ConlluMapDataset.e_script self (lower (form tok))
                             (lower (lemma tok))))) <$> toks),
     ufeats ++ (feats <$> toks)).
Proof.
  revert uposes lemma_rules ufeats.
  induction toks as [|tok toks IH]; intros uposes lemma_rules ufeats; simpl.
  - by rewrite !app_nil_r.
  - rewrite IH. by rewrite <- !app_assoc.
Qed.

Lemma _generator_tok_eq ds it :
  ConlluMapDataset.reverse_edits ds = ConlluIterDataset.reverse_edits it →
  ∀ acc tok,
    ConlluIterDataset._generator_tok it acc tok
    = ConlluMapDataset._get_data_tok ds acc tok.
Proof.
  intros Hrev [[uposes lemma_rules] ufeats] tok.
  unfold ConlluIterDataset._generator_tok, ConlluMapDataset._get_data_tok,
    ConlluIterDataset.e_script, ConlluMapDataset.e_script.
  by rewrite Hrev.
Qed.

(** The two copies of the per-sentence code agree when they run with the
    same encoders and the same directionality. *)
Lemma sentence_parity ds it tk_list :
  ConlluMapDataset.reverse_edits ds = ConlluIterDataset.reverse_edits it →
  ConlluMapDataset.upos_encoder ds = ConlluIterDataset.upos_encoder it →
  ConlluMapDataset.lemma_encoder ds = ConlluIterDataset.lemma_encoder it →
  ConlluMapDataset.ufeats_encoder ds = ConlluIterDataset.ufeats_encoder it →
  ConlluIterDataset._generator_sentence it tk_list
  = ConlluMapDataset._get_data_sentence ds tk_list.
Proof.
  intros Hrev Hu Hl Hf.
  unfold ConlluIterDataset._generator_sentence,
    ConlluMapDataset._get_data_sentence.
  rewrite <- Hu, <- Hl, <- Hf.
  assert (Hfold : ∀ toks acc,
    fold_left (ConlluIterDataset._generator_tok it) toks acc
    = fold_left (ConlluMapDataset._get_data_tok ds) toks acc).
  { induction toks as [|tok toks IH]; intros acc; simpl; [done|].
    by rewrite (_generator_tok_eq ds it Hrev), IH. }
  by rewrite Hfold.
Qed.

Lemma _generator_sentence_as_map it tk_list :
  ConlluIterDataset._generator_sentence it tk_list
  = ConlluMapDataset._get_data_sentence (as_map it) tk_list.
Proof. by apply sentence_parity. Qed.

Lemma _get_data_sentence_record self tk_list r :
  ConlluMapDataset._get_data_sentence self tk_list = Ok r → record_of tk_list r.
Proof.
  unfold ConlluMapDataset._get_data_sentence, metadata_getitem_text.
  rewrite _get_data_tok_fold.
  destruct (metadata_text tk_list) as [text|] eqn:Htext; [|done].
  simpl. intros Hr. inv_bind Hr.
  injection Hr as <-. unfold record_of.
  apply transform_length in Ha0, Ha2, Ha4.
  rewrite length_fmap in Ha0, Ha2, Ha4. done.
Qed.

Lemma run_generator self dt :
  let '(recs, e) := ConlluIterDataset._generator self dt in
  Forall2 (λ tk r, ConlluIterDataset._generator_sentence self tk = Ok r)
    (take (length recs) dt) recs
  ∧ (e = None → length recs = length dt).
Proof.
  induction dt as [|tk dt IH]; simpl.
  - split; [constructor | done].
  - destruct (ConlluIterDataset._generator_sentence self tk) as [r|err] eqn:Hr.
    + destruct (ConlluIterDataset._generator self dt) as [recs e].
      destruct IH as [IH1 IH2]. simpl. split.
      * by constructor.
      * intros He. by rewrite IH2.
    + simpl. split; [constructor | done].
Qed.

Lemma _generator_all self dt recs :
  Forall2 (λ tk r, ConlluIterDataset._generator_sentence self tk = Ok r) dt recs →
  ConlluIterDataset._generator self dt = (recs, None).
Proof.
  induction 1 as [|tk r dt recs Hr _ IH]; simpl; [done|].
  by rewrite Hr, IH.
Qed.

End Sentences.

Lemma sample_streaming_init :
  ConlluIterDataset.__init__ Sample.trained_fs "train.conllu" false "UDTube"
  = Ok Sample.streaming.
Proof. vm_compute. reflexivity. Qed.

Lemma sample_streaming_iter :
  ConlluIterDataset.__iter__ (H := ascii_lower)
    (H0 := EditScriptCodec.impl) Sample.streaming
  = Ok (Sample.data, None).
Proof. vm_compute. reflexivity. Qed.

(** ** C9: one code per token *)

Section Lengths.
Context `{PyStr} `{EditScripts}.

(** C9. Every record a [ConlluMapDataset] buffers and every record a
    [ConlluIterDataset] yields belongs to one sentence of the corpus, in
    corpus order, carries that sentence's text, and has UPOS, lemma-rule
    and feats code sequences as long as the sentence has tokens. *)
Theorem records_match_tokens :
  (∀ fs file rev path ds fs',
     ConlluMapDataset.__init__ fs file rev path = Ok (ds, fs') →
     ∃ dt, (truthy file = true → read_corpus fs' file = Ok dt)
           ∧ Forall2 record_of dt (ConlluMapDataset.data_set ds))
  ∧ (∀ self f dt recs e,
       ConlluIterDataset.conllu_file self = Some f →
       parse_incr f = Ok dt →
       ConlluIterDataset.__iter__ self = Ok (recs, e) →
       Forall2 record_of (take (length recs) dt) recs).
Proof.
  split.
  - intros fs file rev path ds fs' Hinit.
    destruct (truthy file) eqn:Htruthy.
    + apply __init___Ok in Hinit
        as (fcs & lcs & dt & _ & _ & _ & Hdt & Hrs & _); [|done].
      exists dt. split; [done|].
      eapply Forall2_impl; [exact Hrs|].
      intros tk r. apply _get_data_sentence_record.
    + unfold ConlluMapDataset.__init__ in Hinit. rewrite Htruthy in Hinit.
      injection Hinit as <- <-. exists []. split; [done | constructor].
  - intros self f dt recs e Hf Hdt. unfold ConlluIterDataset.__iter__.
    rewrite Hf. simpl. rewrite Hdt. intros [= Hrun].
    pose proof (run_generator self dt) as Hgen. rewrite Hrun in Hgen.
    destruct Hgen as [Hgen _].
    eapply Forall2_impl; [exact Hgen|].
    intros tk r Hr.
    apply (_get_data_sentence_record (as_map self)).
    by rewrite <- _generator_sentence_as_map.
Qed.

End Lengths.

Lemma records_match_tokens_witness :
  (∃ dt, read_corpus Sample.trained_fs "train.conllu" = Ok dt
         ∧ Forall2 record_of dt (ConlluMapDataset.data_set Sample.trained))
  ∧ Forall2 record_of (take (length Sample.data) Sample.corpus) Sample.data.
Proof.
  destruct (records_match_tokens (H := ascii_lower)
              (H0 := EditScriptCodec.impl)) as [Hmap Hiter].
  split.
  - destruct (Hmap Sample.fs "train.conllu" false "UDTube"
                Sample.trained Sample.trained_fs sample_init) as (dt & Hdt & Hrs).
    exists dt. split; [apply Hdt; reflexivity | exact Hrs].
  - exact (Hiter Sample.streaming (ConlluText Sample.corpus) Sample.corpus
             Sample.data None eq_refl eq_refl sample_streaming_iter).
Defined.

(** ** C7: random access *)

Section Access.
Import ConlluMapDataset.


Lemma getitem_of_nat (ds : t) (i : nat) :
  __getitem__ ds (Z.of_nat i)
  = match data_set ds !! i with Some r => Ok r | None => Raise IndexError end.
Proof.
  unfold __getitem__.
  destruct (Z.ltb_spec (Z.of_nat i) 0); [lia|].
  destruct (Z.leb_spec 0 (Z.of_nat i)); [|lia].
  rewrite Nat2Z.id.
  destruct (Z.ltb_spec (Z.of_nat i) (Z.of_nat (length (data_set ds)))); simpl.
  - done.
  - rewrite lookup_ge_None_2; [done | lia].
Qed.

(** The index -1 lies outside [0, 1) and still returns a record. *)
Lemma getitem_negative_index :
  __len__ Sample.trained = 1
  ∧ ¬ (0 ≤ -1 < Z.of_nat (__len__ Sample.trained))%Z
  ∧ __getitem__ Sample.trained (-1) = Ok ("Running fast", [15; 2], [0; 1], [1; 0]).
Proof. split; [reflexivity|]. split; [simpl; lia | reflexivity]. Qed.

(** C7, as the code has it. With n the length of the dataset,
    [__getitem__] raises [IndexError] for every index below -n and every
    index from n on; for 0 <= idx < n it returns the buffered record at
    position idx, and for -n <= idx < 0 the one at position n + idx. *)
Theorem getitem_bounds (ds : t) (idx : Z) :
  ((idx < - Z.of_nat (__len__ ds) ∨ Z.of_nat (__len__ ds) ≤ idx)%Z →
     __getitem__ ds idx = Raise IndexError)
  ∧ ((0 ≤ idx < Z.of_nat (__len__ ds))%Z →
       ∃ r, data_set ds !! Z.to_nat idx = Some r ∧ __getitem__ ds idx = Ok r)
  ∧ ((- Z.of_nat (__len__ ds) ≤ idx < 0)%Z →
       ∃ r, data_set ds !! Z.to_nat (idx + Z.of_nat (__len__ ds)) = Some r
            ∧ __getitem__ ds idx = Ok r).
Proof.
  unfold __getitem__, __len__.
  set (n := Z.of_nat (length (data_set ds))).
  assert (Hget : ∀ i : Z, (0 ≤ i < n)%Z →
            ∃ r, data_set ds !! Z.to_nat i = Some r).
  { intros i Hi. apply lookup_lt_is_Some_2. subst n. lia. }
  repeat split.
  - intros Hidx. destruct (Z.ltb_spec idx 0).
    + destruct (Z.leb_spec 0 (idx + n)); simpl; [|done].
      destruct (Z.ltb_spec (idx + n) n); simpl; [lia | done].
    + destruct (Z.leb_spec 0 idx); simpl; [|done].
      destruct (Z.ltb_spec idx n); simpl; [lia | done].
  - intros Hidx. destruct (Hget idx Hidx) as [r Hr]. exists r. split; [done|].
    destruct (Z.ltb_spec idx 0); [lia|].
    destruct (Z.leb_spec 0 idx); [|lia].
    destruct (Z.ltb_spec idx n); [|lia]. simpl. by rewrite Hr.
  - intros Hidx. destruct (Hget (idx + n)%Z) as [r Hr]; [lia|].
    exists r. split; [done|].
    destruct (Z.ltb_spec idx 0); [|lia].
    destruct (Z.leb_spec 0 (idx + n)); [|lia].
    destruct (Z.ltb_spec (idx + n) n); [|lia]. simpl. by rewrite Hr.
Qed.

Lemma getitem_bounds_witness :
  __getitem__ Sample.trained 1 = Raise IndexError
  ∧ (∃ r, data_set Sample.trained !! Z.to_nat 0 = Some r
          ∧ __getitem__ Sample.trained 0 = Ok r)
  ∧ (∃ r, data_set Sample.trained
            !! Z.to_nat (-1 + Z.of_nat (__len__ Sample.trained)) = Some r
          ∧ __getitem__ Sample.trained (-1) = Ok r).
Proof.
  split; [|split].
  - apply (getitem_bounds Sample.trained 1).
    change (Z.of_nat (__len__ Sample.trained)) with 1%Z. lia.
  - apply (getitem_bounds Sample.trained 0).
    change (Z.of_nat (__len__ Sample.trained)) with 1%Z. lia.
  - apply (getitem_bounds Sample.trained (-1)).
    change (Z.of_nat (__len__ Sample.trained)) with 1%Z. lia.
Defined.

End Access.

(** ** C4: the two datasets agree *)
(** ** C4: the two datasets agree *)

Section Parity.
Context `{PyStr} `{EditScripts}.

Lemma read_corpus_Ok fs p dt :
  read_corpus fs p = Ok dt → ∃ f, os.open fs p = Ok f ∧ parse_incr f = Ok dt.
Proof. unfold read_corpus. intros Hdt. by apply bind_Ok in Hdt. Qed.

(** C4. When a [ConlluMapDataset] has been constructed from a corpus file
    under a namespace, a [ConlluIterDataset] constructed afterwards on the
    same corpus file, with the same directionality and the same namespace,
    loads the stored encoders and yields, without raising, exactly the
    records the first one buffers: the record [__getitem__] returns at
    index i is the i-th record yielded. *)
Theorem assembler_parity fs file rev path ds fs' (i : nat) r :
  ConlluMapDataset.__init__ fs file rev path = Ok (ds, fs') →
  ConlluMapDataset.__getitem__ ds (Z.of_nat i) = Ok r →
  ∃ it recs,
    ConlluIterDataset.__init__ fs' file rev path = Ok it
    ∧ ConlluIterDataset.__iter__ it = Ok (recs, None)
    ∧ recs !! i = Some r
    ∧ recs = ConlluMapDataset.data_set ds.
Proof.
  intros Hinit Hget.
  destruct (truthy file) eqn:Htruthy.
  - apply __init___Ok in Hinit
      as (fcs & lcs & dt & _ & _ & Hds & Hdt & Hrs & Hdir & Hu & Hf & Hl);
      [|done].
    apply read_corpus_Ok in Hdt as (f & Hopen & Hparse).
    set (it := {| ConlluIterDataset.conllu_file := Some f;
                  ConlluIterDataset.upos_encoder := ConlluMapDataset.upos_encoder ds;
                  ConlluIterDataset.ufeats_encoder := ConlluMapDataset.ufeats_encoder ds;
                  ConlluIterDataset.lemma_encoder := ConlluMapDataset.lemma_encoder ds;
                  ConlluIterDataset.reverse_edits := rev |}).
    exists it, (ConlluMapDataset.data_set ds).
    assert (Hrev : ConlluMapDataset.reverse_edits ds = rev) by (by rewrite Hds).
    split; [|split; [|split; [|done]]].
    + unfold ConlluIterDataset.__init__. rewrite Htruthy, Hopen. simpl.
      unfold os.path_exists. rewrite Hdir, bool_decide_eq_true_2 by eauto.
      rewrite Hu, Hf, Hl. subst it. by rewrite Hds.
    + unfold ConlluIterDataset.__iter__. simpl. rewrite Hparse. f_equal.
      apply _generator_all.
      eapply Forall2_impl; [exact Hrs|]. intros tk r' Hr'.
      by rewrite (sentence_parity ds it).
    + rewrite getitem_of_nat in Hget.
      destruct (ConlluMapDataset.data_set ds !! i); congruence.
  - unfold ConlluMapDataset.__init__ in Hinit. rewrite Htruthy in Hinit.
    assert (Hlen : ConlluMapDataset.data_set ds = [])
      by (by injection Hinit as <- <-).
    rewrite getitem_of_nat, Hlen in Hget. done.
Qed.

End Parity.

Lemma assembler_parity_witness :
  ConlluMapDataset.__getitem__ Sample.trained (Z.of_nat 0)
    = Ok ("Running fast", [15; 2], [0; 1], [1; 0])
  ∧ ∃ it recs,
      ConlluIterDataset.__init__ Sample.trained_fs "train.conllu" false "UDTube"
        = Ok it
      ∧ ConlluIterDataset.__iter__ (H := ascii_lower)
          (H0 := EditScriptCodec.impl) it = Ok (recs, None)
      ∧ recs !! 0 = Some ("Running fast", [15; 2], [0; 1], [1; 0])
      ∧ recs = ConlluMapDataset.data_set Sample.trained.
Proof.
  split; [reflexivity|].
  exact (assembler_parity (H := ascii_lower)
           (H0 := EditScriptCodec.impl) Sample.fs "train.conllu" false "UDTube"
           Sample.trained Sample.trained_fs 0 _ sample_init eq_refl).
Defined.

(** ** C6: UPOS labels outside the closed list *)

Lemma sample_fit :
  ConlluMapDataset._fit_label_encoders
    (Sample.before_fit "train.conllu" Sample.fcs Sample.lcs) Sample.fs
  = Ok (fitted "UDTube" "train.conllu" false Sample.fcs Sample.lcs [],
        Sample.trained_fs).
Proof. vm_compute. reflexivity. Qed.

Lemma upos_vocabulary_closed_witness :
  ∃ enc,
    ConlluMapDataset.upos_encoder
      (fitted "UDTube" "train.conllu" false Sample.fcs Sample.lcs []) = Some enc
    ∧ (is_ok (encode enc (Some "FOO")) = true ↔
       ∃ s, Some "FOO" = Some s
            ∧ (s ∈ ConlluMapDataset.UPOS_CLASSES ∨ s = ConlluMapDataset.PAD_TAG)).
Proof.
  destruct (upos_vocabulary_closed _ _ _ _ sample_fit) as (enc & Henc & _ & Hiff).
  exists enc. split; [exact Henc | apply Hiff].
Defined.

(** A corpus with the UPOS label "FOO": the label is in the corpus, the
    fitted UPOS encoder does not encode it, and the construction raises. *)
Lemma foreign_upos_not_encodable :
  Sample.foo ∈ all_tokens Sample.odd_corpus
  ∧ upos Sample.foo = "FOO"
  ∧ ConlluMapDataset._get_all_classes (H := ascii_lower)
      (H0 := EditScriptCodec.impl)
      (Sample.before_fit "odd.conllu" [] []) Sample.odd_fs "feats"
    = Ok Sample.fcs
  ∧ ConlluMapDataset._get_all_classes (H := ascii_lower)
      (H0 := EditScriptCodec.impl)
      (Sample.before_fit "odd.conllu" [] []) Sample.odd_fs "lemma"
    = Ok Sample.odd_lcs
  ∧ (∃ self fs' enc,
       ConlluMapDataset._fit_label_encoders
         (Sample.before_fit "odd.conllu" Sample.fcs Sample.odd_lcs) Sample.odd_fs
       = Ok (self, fs')
       ∧ ConlluMapDataset.upos_encoder self = Some enc
       ∧ encode enc (Some "FOO") = Raise ValueError)
  ∧ ConlluMapDataset.__init__ (H := ascii_lower)
      (H0 := EditScriptCodec.impl) Sample.odd_fs "odd.conllu" false "UDTube"
    = Raise ValueError.
Proof.
  split.
  { apply list_elem_of_In. simpl. tauto. }
  split; [reflexivity|]. split; [reflexivity|]. split; [reflexivity|].
  split; [|vm_compute; reflexivity].
  eexists _, _, _. split; [vm_compute; reflexivity|].
  split; reflexivity.
Qed.

(** ** C5: constructing a ConlluIterDataset *)

Section Streaming.
Context `{PyStr} `{EditScripts}.
Import ConlluIterDataset.

(** Nothing is stored under "UDTube" and the construction succeeds. *)
Lemma streaming_without_vocabularies :
  no_vocabularies Sample.fs "UDTube"
  ∧ __init__ Sample.fs "train.conllu" false "UDTube" = Ok Sample.unfitted.
Proof. split; [by repeat split | reflexivity]. Qed.

Lemma _generator_sentence_unfitted self tk_list :
  upos_encoder self = None →
  _generator_sentence self tk_list
  = match metadata_text tk_list with
    | Some _ => Raise AttributeError
    | None => Raise KeyError
    end.
Proof.
  intros Hu. unfold _generator_sentence, metadata_getitem_text.
  destruct (metadata_text tk_list) as [text|]; [|done]. simpl.
  destruct (fold_left _ _ _) as [[uposes lemma_rules] ufeats].
  by rewrite Hu.
Qed.

(** C5, as the code has it. With no vocabulary stored under the
    namespace and a corpus file that opens: when the namespace path is a
    directory, construction raises [FileNotFoundError]; when it is a
    regular file, construction raises [NotADirectoryError]; when nothing
    is there, construction succeeds, assigns no encoder, and the failure
    comes only when the iteration reaches the first sentence: as
    [AttributeError] when the sentence has a text, and as [KeyError] when
    it has none. *)
Theorem streaming_init_vocabularies fs file rev path f :
  truthy file = true →
  os.open fs file = Ok f →
  no_vocabularies fs path →
  (fs !! path = Some Dir →
     __init__ fs file rev path = Raise FileNotFoundError)
  ∧ (∀ c, fs !! path = Some (File c) →
       __init__ fs file rev path = Raise NotADirectoryError)
  ∧ (fs !! path = None →
       ∃ it,
         __init__ fs file rev path = Ok it
         ∧ conllu_file it = Some f
         ∧ upos_encoder it = None
         ∧ ufeats_encoder it = None
         ∧ lemma_encoder it = None
         ∧ ∀ tk_list dt,
             parse_incr f = Ok (tk_list :: dt) →
             __iter__ it
             = Ok ([], Some (match metadata_text tk_list with
                             | Some _ => AttributeError
                             | None => KeyError
                             end))).
Proof.
  intros Htruthy Hopen (Hu & _ & _). unfold __init__.
  rewrite Htruthy, Hopen. simpl. unfold os.path_exists.
  split; [|split].
  - intros Hpath. rewrite Hpath, bool_decide_eq_true_2 by eauto.
    unfold joblib.load. by rewrite Hpath, Hu.
  - intros c Hpath. rewrite Hpath, bool_decide_eq_true_2 by eauto.
    unfold joblib.load. by rewrite Hpath.
  - intros Hpath. rewrite Hpath, bool_decide_eq_false_2 by (by intros [? ?]).
    simpl. eexists. split; [reflexivity|]. repeat split.
    intros tk_list dt Hdt. unfold __iter__. simpl. rewrite Hdt. simpl.
    rewrite _generator_sentence_unfitted by done.
    by destruct (metadata_text tk_list).
Qed.

End Streaming.

Lemma streaming_init_vocabularies_witness :
  ConlluIterDataset.__init__ Sample.bare_fs "train.conllu" false "UDTube"
    = Raise FileNotFoundError
  ∧ ConlluIterDataset.__init__ Sample2.blocked_fs "train.conllu" false "UDTube"
    = Raise NotADirectoryError
  ∧ ∃ it,
      ConlluIterDataset.__init__ Sample.fs "train.conllu" false "UDTube" = Ok it
      ∧ ConlluIterDataset.upos_encoder it = None
      ∧ ConlluIterDataset.__iter__ (H := ascii_lower)
          (H0 := EditScriptCodec.impl) it = Ok ([], Some AttributeError).
Proof.
  split; [|split].
  - apply (proj1 (streaming_init_vocabularies (H := ascii_lower)
                    (H0 := EditScriptCodec.impl) Sample.bare_fs "train.conllu"
                    false "UDTube" (ConlluText Sample.corpus)
                    eq_refl eq_refl (conj eq_refl (conj eq_refl eq_refl)))).
    reflexivity.
  - apply (proj1 (proj2 (streaming_init_vocabularies (H := ascii_lower)
                    (H0 := EditScriptCodec.impl) Sample2.blocked_fs "train.conllu"
                    false "UDTube" (ConlluText Sample.corpus)
                    eq_refl eq_refl (conj eq_refl (conj eq_refl eq_refl))))
             (ConlluText [])).
    reflexivity.
  - destruct (proj2 (proj2 (streaming_init_vocabularies (H := ascii_lower)
                       (H0 := EditScriptCodec.impl) Sample.fs "train.conllu"
                       false "UDTube" (ConlluText Sample.corpus)
                       eq_refl eq_refl (conj eq_refl (conj eq_refl eq_refl))))
                eq_refl) as (it & Hit & _ & Hu & _ & _ & Hiter).
    exists it. split; [exact Hit|]. split; [exact Hu|].
    exact (Hiter _ [] eq_refl).
Defined.

(** ** C2: the order of the codes *)

Lemma py_in_spec x classes : py_in x classes = true ↔ x ∈ classes.
Proof. unfold py_in. apply bool_decide_eq_true. Qed.

Lemma first_seen_filter (P : Label → Prop) `{∀ x, Decision (P x)} l :
  first_seen (filter P l) = filter P (first_seen l).
Proof.
  induction l as [|x l IH]; simpl; [done|].
  destruct (decide (P x)) as [HP|HP].
  - rewrite !filter_cons_True by done. simpl. f_equal.
    rewrite IH, !list_filter_filter. apply list_filter_iff.
    intros y. split; intros [? ?]; by split.
  - rewrite !filter_cons_False by done. rewrite IH, list_filter_filter.
    apply list_filter_iff. intros y. split; [|by intros [? _]].
    intros Hy. split; [done | congruence].
Qed.

Lemma elem_of_first_seen x l : x ∈ first_seen l ↔ x ∈ l.
Proof.
  induction l as [|y l IH]; simpl; [done|].
  rewrite !elem_of_cons, list_elem_of_filter, IH.
  destruct (decide (x = y)); tauto.
Qed.

Lemma NoDup_first_seen l : NoDup (first_seen l).
Proof.
  induction l as [|y l IH]; simpl; [constructor|].
  constructor; [|by apply NoDup_filter].
  rewrite list_elem_of_filter. tauto.
Qed.

(** The loop "append what is not there yet" collects the first
    occurrences. *)
Lemma collect_first_seen l acc :
  fold_left (λ classes v, if negb (py_in v classes) then classes ++ [v] else classes)
    l acc
  = acc ++ first_seen (filter (λ v, v ∉ acc) l).
Proof.
  revert acc. induction l as [|v l IH]; intros acc; simpl.
  - by rewrite app_nil_r.
  - destruct (py_in v acc) eqn:Hin; simpl.
    + apply py_in_spec in Hin. rewrite filter_cons_False by tauto. apply IH.
    + assert (Hv : v ∉ acc).
      { intros Hv. apply py_in_spec in Hv. congruence. }
      rewrite filter_cons_True by done. simpl.
      rewrite IH, <- app_assoc. simpl. do 2 f_equal.
      rewrite <- first_seen_filter, list_filter_filter. f_equal.
      apply list_filter_iff. intros w.
      rewrite elem_of_app, list_elem_of_singleton. tauto.
Qed.

Lemma filter_all {A} (P : A → Prop) `{∀ x, Decision (P x)} (l : list A) :
  (∀ x, P x) → filter P l = l.
Proof.
  intros HP. induction l as [|x l IH]; [done|].
  rewrite filter_cons_True by done. by rewrite IH.
Qed.

Lemma fold_left_fmap {S A B} (f : S → B → S) (g : A → B) l s :
  fold_left f (g <$> l) s = fold_left (λ s a, f s (g a)) l s.
Proof. revert s. induction l as [|a l IH]; intros s; simpl; [done|]. apply IH. Qed.

Section Classes.
Context `{PyStr} `{EditScripts}.
Import ConlluMapDataset.

(** [_get_all_classes] with a label computed from the token by [label]. *)
Lemma _get_all_classes_first_seen self fs lname dt (label : Token → Label) :
  read_corpus fs (conllu_file self) = Ok dt →
  (∀ classes tok,
     _get_all_classes_tok self lname classes tok
     = Ok (if negb (py_in (label tok) classes)
           then classes ++ [label tok] else classes)) →
  _get_all_classes self fs lname = Ok (first_seen (label <$> all_tokens dt)).
Proof.
  intros Hdt Hstep. unfold _get_all_classes.
  unfold read_corpus in Hdt. apply bind_Ok in Hdt as (f & -> & Hdt). simpl.
  rewrite Hdt. simpl.
  rewrite (for_each_ext _
    (λ classes tk_list, Ok (fold_left
       (λ classes tok, if negb (py_in (label tok) classes)
                       then classes ++ [label tok] else classes)
       (tokens tk_list) classes))).
  2:{ intros classes tk_list. rewrite (for_each_ext _ _ _ _ Hstep).
      apply for_each_pure. }
  rewrite for_each_pure.
  rewrite <- (fold_left_fmap (λ s l, fold_left _ l s) tokens).
  rewrite fold_left_concat.
  rewrite <- (fold_left_fmap
    (λ classes v, if negb (py_in v classes) then classes ++ [v] else classes)
    label).
  rewrite collect_first_seen. simpl. do 2 f_equal.
  apply filter_all. intros v. apply not_elem_of_nil.
Qed.

End Classes.

Lemma sorted_NoDup l : StronglySorted label_lt l → NoDup l.
Proof.
  induction 1 as [|x l _ IH Hx]; constructor; [|done].
  intros Hin. eapply Forall_forall in Hx; [|exact Hin].
  by apply label_lt_irrefl in Hx.
Qed.

(** A table fitted on [classes] and the pad tag has at most one entry more
    than there are distinct classes. *)
Lemma length_np_unique_pad classes :
  length (LabelEncoder.np_unique (classes ++ [Some ConlluMapDataset.PAD_TAG]))
  ≤ S (length (first_seen classes)).
Proof.
  replace (S (length (first_seen classes)))
    with (length (first_seen classes ++ [Some ConlluMapDataset.PAD_TAG]))
    by (rewrite length_app; simpl; lia).
  apply submseteq_length, NoDup_submseteq.
  - apply sorted_NoDup, np_unique_sorted.
  - intros x. rewrite elem_of_np_unique, !elem_of_app, elem_of_first_seen. tauto.
Qed.

(** X15. Where the pad tag lands: it has the last code of a table fitted
    on [classes] and the pad tag exactly when no class sorts after it; a
    [None] among the classes does. *)
Lemma pad_last_iff (classes : list Label) :
  encode (LabelEncoder.fit LabelEncoder.new
            (classes ++ [Some ConlluMapDataset.PAD_TAG]))
    (Some ConlluMapDataset.PAD_TAG)
  = Ok (length (LabelEncoder.np_unique
                  (classes ++ [Some ConlluMapDataset.PAD_TAG])) - 1)
  ↔ ∀ c, c ∈ classes → ¬ label_lt (Some ConlluMapDataset.PAD_TAG) c.
Proof.
  set (pad := Some ConlluMapDataset.PAD_TAG).
  set (uniques := LabelEncoder.np_unique (classes ++ [pad])).
  assert (Hsorted : StronglySorted label_lt uniques) by apply np_unique_sorted.
  assert (Hpad : pad ∈ uniques).
  { subst uniques. rewrite elem_of_np_unique, elem_of_app, list_elem_of_singleton.
    by right. }
  destruct (index_of_elem pad uniques Hpad) as (i & Hi & Hilt).
  unfold encode. rewrite (transform_one _ uniques) by reflexivity.
  rewrite Hi. simpl. split.
  - intros [= ->] c Hc Hlt.
    assert (Hcu : c ∈ uniques).
    { subst uniques. rewrite elem_of_np_unique, elem_of_app. by left. }
    destruct (index_of_elem c uniques Hcu) as (j & Hj & Hjlt).
    apply (index_of_sorted uniques pad c _ j Hsorted Hi Hj) in Hlt. lia.
  - intros Hmax. f_equal.
    destruct (decide (i = length uniques - 1)) as [|Hne]; [done | exfalso].
    destruct (lookup_lt_is_Some_2 uniques (S i)) as [c Hc]; [lia|].
    assert (Hcu : c ∈ uniques) by (by eapply list_elem_of_lookup_2).
    destruct (index_of_elem c uniques Hcu) as (j & Hj & _).
    assert (j = S i) as ->.
    { eapply NoDup_lookup; [by apply sorted_NoDup | | exact Hc].
      by apply index_of_lookup. }
    assert (Hlt : label_lt pad c).
    { apply (index_of_sorted uniques pad c i (S i) Hsorted Hi Hj). lia. }
    subst uniques. rewrite elem_of_np_unique, elem_of_app, list_elem_of_singleton in Hcu.
    destruct Hcu as [Hcu | ->].
    + by apply (Hmax c).
    + by apply label_lt_irrefl in Hlt.
Qed.

(** "Tense=Pres" is met first and "Degree=Pos" second, and their codes are
    1 and 0. *)
Lemma codes_not_in_insertion_order :
  ConlluMapDataset._get_all_classes (H := ascii_lower)
    (H0 := EditScriptCodec.impl)
    (Sample.before_fit "train.conllu" [] []) Sample.fs "feats"
  = Ok [Some "Tense=Pres"; Some "Degree=Pos"]
  ∧ ∃ enc,
      ConlluMapDataset.ufeats_encoder Sample.trained = Some enc
      ∧ encode enc (Some "Tense=Pres") = Ok 1
      ∧ encode enc (Some "Degree=Pos") = Ok 0.
Proof.
  split; [reflexivity|]. eexists. split; [reflexivity|]. split; reflexivity.
Qed.

Section Order.
Context `{PyStr} `{EditScripts}.
Import ConlluMapDataset.

(** C2, as the code has it. The scan collects the distinct feats values,
    each a string or [None] for an empty column, and the distinct lemma
    rules in the order they are first met. Fitting then numbers the labels
    in their sorted order, not in the order they were met: the strings in
    ascending order and [None] after every string. Two fitted classes have
    codes between 0 and the number n of distinct classes, and the one that
    sorts first has the smaller code. *)
Theorem codes_follow_sorted_order :
  (∀ self fs dt,
     read_corpus fs (conllu_file self) = Ok dt →
     _get_all_classes self fs "feats" = Ok (first_seen (feats <$> all_tokens dt))
     ∧ _get_all_classes self fs "lemma"
       = Ok (first_seen (lemma_rule (reverse_edits self) <$> all_tokens dt)))
  ∧ (∀ (classes : list Label) a b,
       a ∈ classes → b ∈ classes →
       ∃ i j,
         encode (LabelEncoder.fit LabelEncoder.new (classes ++ [Some PAD_TAG])) a
         = Ok i
         ∧ encode (LabelEncoder.fit LabelEncoder.new (classes ++ [Some PAD_TAG])) b
           = Ok j
         ∧ i ≤ length (first_seen classes)
         ∧ j ≤ length (first_seen classes)
         ∧ (i < j ↔ label_lt a b))
  ∧ (∀ a b : string, label_lt (Some a) (Some b) ↔ str_lt a b)
  ∧ (∀ a : string, label_lt (Some a) None).
Proof.
  split; [|split; [|split]].
  - intros self fs dt Hdt. split.
    + apply _get_all_classes_first_seen; [done|].
      intros classes tok. unfold _get_all_classes_tok. simpl.
      by destruct (py_in (feats tok) classes).
    + apply (_get_all_classes_first_seen self fs "lemma" dt
               (lemma_rule (reverse_edits self))); [done|].
      intros classes tok. unfold _get_all_classes_tok, lemma_rule, e_script.
      simpl. by destruct (py_in _ classes).
  - intros classes a b Ha Hb.
    set (uniques := LabelEncoder.np_unique (classes ++ [Some PAD_TAG])).
    assert (Hin : ∀ x, x ∈ classes → x ∈ uniques).
    { intros x Hx. subst uniques. rewrite elem_of_np_unique, elem_of_app.
      by left. }
    destruct (index_of_elem a uniques (Hin a Ha)) as (i & Hi & Hilt).
    destruct (index_of_elem b uniques (Hin b Hb)) as (j & Hj & Hjlt).
    pose proof (length_np_unique_pad classes) as Hlen. fold uniques in Hlen.
    exists i, j. unfold encode.
    rewrite !(transform_one _ uniques) by reflexivity.
    rewrite Hi, Hj. simpl.
    split; [done|]. split; [done|]. split; [lia|]. split; [lia|].
    eapply index_of_sorted; [|exact Hi|exact Hj]. apply np_unique_sorted.
  - intros a b. apply label_lt_Some.
  - intros a. apply label_lt_None.
Qed.

End Order.

Lemma sample_plain_init :
  ∃ ds fs',
    ConlluMapDataset.__init__ (H := ascii_lower) (H0 := EditScriptCodec.impl)
      Sample2.plain_fs "plain.conllu" false "UDTube" = Ok (ds, fs')
    ∧ ConlluMapDataset.feats_classes ds = Some [None; Some "abc=Yes"]
    ∧ ConlluMapDataset.data_set ds = [("fast yes", [2; 6], [1; 0], [2; 1])].
Proof. eexists _, _. split; [vm_compute; reflexivity|]. by split. Qed.

Lemma codes_follow_sorted_order_witness :
  ConlluMapDataset._get_all_classes (H := ascii_lower)
    (H0 := EditScriptCodec.impl)
    (Sample.before_fit "plain.conllu" [] []) Sample2.plain_fs "feats"
  = Ok (first_seen (feats <$> all_tokens Sample2.plain_corpus))
  ∧ first_seen (feats <$> all_tokens Sample2.plain_corpus) = [None; Some "abc=Yes"]
  ∧ ∃ i j,
      encode (LabelEncoder.fit LabelEncoder.new
                ([None; Some "abc=Yes"] ++ [Some ConlluMapDataset.PAD_TAG])) None
      = Ok i
      ∧ encode (LabelEncoder.fit LabelEncoder.new
                  ([None; Some "abc=Yes"] ++ [Some ConlluMapDataset.PAD_TAG]))
          (Some "abc=Yes") = Ok j
      ∧ (i < j ↔ label_lt None (Some "abc=Yes"))
      ∧ i = 2 ∧ j = 1.
Proof.
  destruct (codes_follow_sorted_order (H := ascii_lower)
              (H0 := EditScriptCodec.impl)) as (Hscan & Hfit & _).
  split; [|split; [reflexivity|]].
  - exact (proj1 (Hscan (Sample.before_fit "plain.conllu" [] [])
                    Sample2.plain_fs Sample2.plain_corpus eq_refl)).
  - assert (Ha : None ∈ [None; Some "abc=Yes"]).
    { apply list_elem_of_In. simpl. tauto. }
    assert (Hb : Some "abc=Yes" ∈ ([None; Some "abc=Yes"] : list Label)).
    { apply list_elem_of_In. simpl. tauto. }
    destruct (Hfit [None; Some "abc=Yes"] None (Some "abc=Yes") Ha Hb)
      as (i & j & Hi & Hj & _ & _ & Hij).
    exists i, j. split; [exact Hi|]. split; [exact Hj|]. split; [exact Hij|].
    split.
    + assert (Ok i = Ok 2) as [= ->]; [by rewrite <- Hi | done].
    + assert (Ok j = Ok 1) as [= ->]; [by rewrite <- Hj | done].
Defined.

(** ** C3: the edit-script codec *)

Section Codec.
Context {A : Type} `{EqDecision A}.
Import EditScriptCodec.

Lemma common_prefix_le (s t : list A) :
  common_prefix s t ≤ length s ∧ common_prefix s t ≤ length t.
Proof.
  revert t. induction s as [|x s IH]; intros [|y t]; simpl; try lia.
  destruct (decide (x = y)); simpl; [|lia].
  destruct (IH t). lia.
Qed.

Lemma common_prefix_take (s t : list A) k :
  k ≤ common_prefix s t → take k s = take k t.
Proof.
  revert s t. induction k as [|k IH]; intros s t; [done|].
  destruct s as [|x s], t as [|y t]; simpl; try lia.
  destruct (decide (x = y)) as [->|]; [|lia].
  intros Hk. f_equal. apply IH. lia.
Qed.

Lemma common_suffix_drop (s t : list A) k :
  k ≤ common_suffix s t → drop (length s - k) s = drop (length t - k) t.
Proof.
  intros Hk. apply common_prefix_take in Hk.
  rewrite !take_reverse in Hk.
  apply (f_equal reverse) in Hk. by rewrite !reverse_involutive in Hk.
Qed.

Lemma shrink_le p m x : shrink p m x ≤ x.
Proof.
  induction x as [|x IH]; simpl; [done|].
  destruct (decide (p + S x ≤ m)); lia.
Qed.

Lemma shrink_fits p m x : p ≤ m → p + shrink p m x ≤ m.
Proof.
  intros Hp. induction x as [|x IH]; simpl; [lia|].
  destruct (decide (p + S x ≤ m)); lia.
Qed.

(** A string is its prefix, its middle and its suffix. *)
Lemma prefix_middle_suffix p x (t : list A) :
  p + x ≤ length t →
  take p t ++ middle p x t ++ drop (length t - x) t = t.
Proof.
  intros Hpx. unfold middle.
  transitivity (take (length t - x) t ++ drop (length t - x) t);
    [|apply take_drop].
  rewrite app_assoc. f_equal.
  replace (take p t) with (take p (take (length t - x) t))
    by (rewrite take_take; f_equal; lia).
  apply take_drop.
Qed.

Lemma apply_compute_forward (s t : list A) :
  apply_forward (compute_forward s t) s = t.
Proof.
  unfold apply_forward, compute_forward. simpl.
  set (p := common_prefix s t).
  set (x := shrink p (length s `min` length t) (common_suffix s t)).
  destruct (common_prefix_le s t) as [Hps Hpt]. fold p in Hps, Hpt.
  assert (Hfit : p + x ≤ length s `min` length t).
  { apply shrink_fits. lia. }
  assert (Hx : x ≤ common_suffix s t) by apply shrink_le.
  rewrite (Nat.min_l p) by lia. rewrite (Nat.min_l x) by lia.
  destruct (decide (s = t)) as [->|Hne]; simpl.
  - apply prefix_middle_suffix. lia.
  - rewrite drop_all, app_nil_r.
    rewrite (common_prefix_take s t p) by done.
    rewrite (common_suffix_drop s t x) by done.
    apply prefix_middle_suffix. lia.
Qed.

Lemma apply_compute_reverse (s t : list A) :
  apply_chars (compute_reverse s t) s = t.
Proof.
  unfold apply_chars, compute_reverse. simpl.
  transitivity (reverse (reverse t)); [|apply reverse_involutive].
  f_equal. exact (apply_compute_forward (reverse s) (reverse t)).
Qed.

End Codec.

(** C3. For all strings s and t and for both the Forward and the Reverse
    variant of the codec, applying the edit script computed from (s, t) to
    s gives back t. *)
Theorem edit_script_round_trip (v : EditScriptCodec.Variant) (s t : string) :
  EditScriptCodec.apply (EditScriptCodec.compute v s t) s = t.
Proof.
  unfold EditScriptCodec.apply, EditScriptCodec.compute.
  destruct v.
  - unfold EditScriptCodec.apply_chars. simpl.
    rewrite apply_compute_forward. apply string_of_list_ascii_of_string.
  - rewrite apply_compute_reverse. apply string_of_list_ascii_of_string.
Qed.

(** * Further properties of the code *)

(** ** Decoding what was encoded *)

Lemma _encode_Forall2 uniques values codes :
  LabelEncoder._encode uniques values = Ok codes ↔
  Forall2 (λ v i, LabelEncoder.index_of v uniques = Some i) values codes.
Proof.
  unfold LabelEncoder._encode. revert codes.
  induction values as [|v values IH]; intros codes; simpl.
  - split.
    + intros [= <-]. constructor.
    + intros Hnil. by apply Forall2_nil_inv_l in Hnil as ->.
  - destruct (LabelEncoder.index_of v uniques) as [i|] eqn:Hi; simpl.
    + destruct (traverse _ values) as [cs|e] eqn:Hcs; simpl.
      * split.
        -- intros [= <-]. constructor; [done | by apply IH].
        -- intros Hall.
           apply Forall2_cons_inv_l in Hall as (i' & cs' & Hi' & Hcs' & ->).
           apply IH in Hcs'. congruence.
      * split; [done|]. intros Hall.
        apply Forall2_cons_inv_l in Hall as (i' & cs' & _ & Hcs' & ->).
        apply IH in Hcs'. done.
    + split; [done|]. intros Hall.
      apply Forall2_cons_inv_l in Hall as (i' & cs' & Hi' & _ & ->). congruence.
Qed.

Lemma transform_Forall2 enc uniques y codes :
  LabelEncoder.classes_ enc = Some uniques →
  LabelEncoder.transform enc y = Ok codes ↔
  Forall2 (λ v i, LabelEncoder.index_of v uniques = Some i) y codes.
Proof.
  intros Hu. unfold LabelEncoder.transform. rewrite Hu.
  destruct y as [|v y]; [|apply _encode_Forall2].
  split.
  - intros [= <-]. constructor.
  - intros Hnil. by apply Forall2_nil_inv_l in Hnil as ->.
Qed.

Lemma transform_fitted enc y codes :
  LabelEncoder.transform enc y = Ok codes →
  ∃ uniques, LabelEncoder.classes_ enc = Some uniques.
Proof.
  unfold LabelEncoder.transform.
  destruct (LabelEncoder.classes_ enc) as [uniques|]; [eauto | done].
Qed.

(** [inverse_transform] undoes [transform]. *)
Lemma transform_inverse enc y codes :
  LabelEncoder.transform enc y = Ok codes →
  LabelEncoder.inverse_transform enc codes = Ok y.
Proof.
  intros Ht. destruct (transform_fitted _ _ _ Ht) as [uniques Hu].
  apply (transform_Forall2 _ uniques) in Ht; [|done].
  unfold LabelEncoder.inverse_transform. rewrite Hu.
  induction Ht as [|v i y codes Hi _ IH]; simpl; [done|].
  apply index_of_lookup in Hi as Hlook.
  apply lookup_lt_Some in Hlook as Hlt.
  destruct (Nat.ltb_spec i (length uniques)); [|lia]. simpl.
  destruct (forallb _ codes); [|done].
  injection IH as IH. rewrite Hlook. do 2 f_equal. exact IH.
Qed.

Lemma transform_lt enc uniques y codes :
  LabelEncoder.classes_ enc = Some uniques →
  LabelEncoder.transform enc y = Ok codes →
  Forall (λ c, c < length uniques) codes.
Proof.
  intros Hu Ht. apply (transform_Forall2 _ uniques) in Ht; [|done].
  induction Ht as [|v i y codes Hi _ IH]; constructor; [|done].
  by apply index_of_lookup, lookup_lt_Some in Hi.
Qed.

Lemma transform_elem enc uniques y codes :
  LabelEncoder.classes_ enc = Some uniques →
  LabelEncoder.transform enc y = Ok codes →
  ∀ v, v ∈ y → v ∈ uniques.
Proof.
  intros Hu Ht. apply (transform_Forall2 _ uniques) in Ht; [|done].
  induction Ht as [|w i y codes Hi _ IH]; intros v Hv.
  - by apply elem_of_nil in Hv.
  - apply elem_of_cons in Hv as [->|Hv]; [|by apply IH].
    by apply index_of_lookup, list_elem_of_lookup_2 in Hi.
Qed.

(** Labels that are all in the table are encoded without an exception. *)
Lemma transform_succeeds enc uniques y :
  LabelEncoder.classes_ enc = Some uniques →
  (∀ v, v ∈ y → v ∈ uniques) →
  ∃ codes, LabelEncoder.transform enc y = Ok codes.
Proof.
  intros Hu Hy.
  assert (∃ codes,
    Forall2 (λ v i, LabelEncoder.index_of v uniques = Some i) y codes)
    as [codes Hcodes].
  { induction y as [|v y IH]; [by exists []|].
    destruct IH as [codes Hcodes].
    { intros w Hw. apply Hy. by right. }
    destruct (index_of_elem v uniques) as (i & Hi & _).
    { apply Hy. by left. }
    exists (i :: codes). by constructor. }
  exists codes. by apply (transform_Forall2 _ uniques).
Qed.

Section Decoding.
Context `{PyStr} `{EditScripts}.

(** X1. Whatever either dataset class encodes can be decoded: when the
    per-sentence code of [ConlluMapDataset._get_data] or of
    [ConlluIterDataset._generator] produces a record, decoding its three
    code sequences with the same encoders gives back the tokens' UPOS
    labels, lemma rules and feats, in order. *)
Theorem records_decode :
  (∀ self tk_list r,
     ConlluMapDataset._get_data_sentence self tk_list = Ok r →
     decodes_to (ConlluMapDataset.upos_encoder self)
       (ConlluMapDataset.lemma_encoder self)
       (ConlluMapDataset.ufeats_encoder self)
       ((λ tok, Some (upos tok)) <$> tokens tk_list)
       ((λ tok, Some (str (ConlluMapDataset.e_script self (lower (form tok))
                             (lower (lemma tok))))) <$> tokens tk_list)
       (feats <$> tokens tk_list) r)
  ∧ (∀ self tk_list r,
       ConlluIterDataset._generator_sentence self tk_list = Ok r →
       decodes_to (ConlluIterDataset.upos_encoder self)
         (ConlluIterDataset.lemma_encoder self)
         (ConlluIterDataset.ufeats_encoder self)
         ((λ tok, Some (upos tok)) <$> tokens tk_list)
         ((λ tok, Some (str (ConlluIterDataset.e_script self (lower (form tok))
                               (lower (lemma tok))))) <$> tokens tk_list)
         (feats <$> tokens tk_list) r).
Proof.
  assert (Hmap : ∀ self tk_list r,
     ConlluMapDataset._get_data_sentence self tk_list = Ok r →
     decodes_to (ConlluMapDataset.upos_encoder self)
       (ConlluMapDataset.lemma_encoder self)
       (ConlluMapDataset.ufeats_encoder self)
       ((λ tok, Some (upos tok)) <$> tokens tk_list)
       ((λ tok, Some (str (ConlluMapDataset.e_script self (lower (form tok))
                             (lower (lemma tok))))) <$> tokens tk_list)
       (feats <$> tokens tk_list) r).
  { intros self tk_list r.
    unfold ConlluMapDataset._get_data_sentence, metadata_getitem_text.
    rewrite _get_data_tok_fold.
    destruct (metadata_text tk_list) as [text|]; [|done].
    simpl. intros Hr. inv_bind Hr.
    injection Hr as <-. unfold decodes_to.
    rewrite Ha, Ha1, Ha3. simpl.
    by rewrite (transform_inverse _ _ _ Ha0), (transform_inverse _ _ _ Ha2),
      (transform_inverse _ _ _ Ha4). }
  split; [exact Hmap|].
  intros self tk_list r Hr.
  rewrite _generator_sentence_as_map in Hr.
  exact (Hmap (as_map self) tk_list r Hr).
Qed.

End Decoding.

Lemma records_decode_witness :
  decodes_to (ConlluMapDataset.upos_encoder Sample.trained)
    (ConlluMapDataset.lemma_encoder Sample.trained)
    (ConlluMapDataset.ufeats_encoder Sample.trained)
    [Some "VERB"; Some "ADV"] [Some "F3,0|-4|+"; Some "F4,0"]
    [Some "Tense=Pres"; Some "Degree=Pos"]
    ("Running fast", [15; 2], [0; 1], [1; 0])
  ∧ decodes_to (ConlluIterDataset.upos_encoder Sample.streaming)
      (ConlluIterDataset.lemma_encoder Sample.streaming)
      (ConlluIterDataset.ufeats_encoder Sample.streaming)
      [Some "VERB"; Some "ADV"] [Some "F3,0|-4|+"; Some "F4,0"]
      [Some "Tense=Pres"; Some "Degree=Pos"]
      ("Running fast", [15; 2], [0; 1], [1; 0]).
Proof.
  destruct (records_decode (H := ascii_lower) (H0 := EditScriptCodec.impl))
    as [Hmap Hiter].
  split.
  - exact (Hmap Sample.trained
             {| metadata_text := Some "Running fast";
                tokens := [Sample.running; Sample.fast] |} _ eq_refl).
  - exact (Hiter Sample.streaming
             {| metadata_text := Some "Running fast";
                tokens := [Sample.running; Sample.fast] |} _ eq_refl).
Defined.

(** ** The size of a vocabulary and the range of the codes *)

Lemma np_unique_first_seen l : LabelEncoder.np_unique l ≡ₚ first_seen l.
Proof.
  apply NoDup_Permutation.
  - apply sorted_NoDup, np_unique_sorted.
  - apply NoDup_first_seen.
  - intros x. by rewrite elem_of_np_unique, elem_of_first_seen.
Qed.

Lemma length_first_seen_le l : length (first_seen l) ≤ length l.
Proof.
  induction l as [|x l IH]; simpl; [done|].
  pose proof (length_filter (λ y, y ≠ x) (first_seen l)). lia.
Qed.

Lemma first_seen_snoc l x :
  first_seen (l ++ [x]) ≡ₚ
    if decide (x ∈ l) then first_seen l else x :: first_seen l.
Proof.
  apply NoDup_Permutation.
  - apply NoDup_first_seen.
  - destruct (decide (x ∈ l)); [apply NoDup_first_seen|].
    constructor; [by rewrite elem_of_first_seen | apply NoDup_first_seen].
  - intros y. rewrite elem_of_first_seen, elem_of_app, list_elem_of_singleton.
    destruct (decide (x ∈ l)) as [Hx|Hx].
    + rewrite elem_of_first_seen. split; [intros [?| ->]; done | by left].
    + rewrite elem_of_cons, elem_of_first_seen. tauto.
Qed.

(** X2. Fitting on the observed classes with the pad tag appended never
    fails and keeps one entry per distinct label: the table has one entry
    more than there are distinct classes when the pad tag is not among
    them, and exactly as many when it is, in which case the pad tag has no
    code of its own. The pad tag is always encodable. *)
Theorem vocabulary_size (classes : list Label) :
  ∃ uniques,
    LabelEncoder.classes_
      (LabelEncoder.fit LabelEncoder.new
         (classes ++ [Some ConlluMapDataset.PAD_TAG]))
    = Some uniques
    ∧ length uniques
      = length (first_seen classes)
        + (if decide (Some ConlluMapDataset.PAD_TAG ∈ classes) then 0 else 1)
    ∧ ∃ c, encode (LabelEncoder.fit LabelEncoder.new
                     (classes ++ [Some ConlluMapDataset.PAD_TAG]))
             (Some ConlluMapDataset.PAD_TAG) = Ok c
           ∧ uniques !! c = Some (Some ConlluMapDataset.PAD_TAG).
Proof.
  set (pad := Some ConlluMapDataset.PAD_TAG).
  exists (LabelEncoder.np_unique (classes ++ [pad])).
  split; [reflexivity|]. split.
  - rewrite (Permutation_length (np_unique_first_seen _)).
    rewrite (Permutation_length (first_seen_snoc _ _)).
    destruct (decide (pad ∈ classes)); simpl; lia.
  - destruct (index_of_elem pad (LabelEncoder.np_unique (classes ++ [pad])))
      as (c & Hc & _).
    { rewrite elem_of_np_unique, elem_of_app, list_elem_of_singleton. by right. }
    exists c. unfold encode.
    rewrite (transform_one _ (LabelEncoder.np_unique (classes ++ [pad])))
      by reflexivity.
    rewrite Hc. split; [done|]. by apply index_of_lookup.
Qed.

Section Bounds.
Context `{PyStr} `{EditScripts}.

(** X3. In every dataset constructed from a corpus file, the codes of the
    buffered records are in range: UPOS codes are at most 18, lemma-rule
    codes at most the number of collected lemma rules, and feats codes at
    most the number of collected feats values. *)
Theorem codes_bounded fs file rev path ds fs' fcs lcs :
  ConlluMapDataset.__init__ fs file rev path = Ok (ds, fs') →
  ConlluMapDataset.feats_classes ds = Some fcs →
  ConlluMapDataset.lemma_classes ds = Some lcs →
  Forall (λ r : SentenceRecord,
            let '(_, u, l, f) := r in
            codes_le 18 u ∧ codes_le (length lcs) l ∧ codes_le (length fcs) f)
    (ConlluMapDataset.data_set ds).
Proof.
  intros Hinit Hfcs Hlcs.
  destruct (truthy file) eqn:Htruthy.
  - apply __init___Ok in Hinit
      as (fcs' & lcs' & dt & _ & _ & Hds & _ & Hrs & _); [|done].
    rewrite Hds in Hfcs, Hlcs. simpl in Hfcs, Hlcs.
    injection Hfcs as ->. injection Hlcs as ->.
    eapply Forall2_Forall_r; [exact Hrs|].
    apply Forall_forall. intros tk _ r.
    unfold ConlluMapDataset._get_data_sentence, metadata_getitem_text.
    rewrite _get_data_tok_fold.
    destruct (metadata_text tk) as [text|]; [|done].
    simpl. intros Hr. inv_bind Hr.
    injection Hr as <-.
    rewrite Hds in Ha, Ha1, Ha3. simpl in Ha, Ha1, Ha3.
    injection Ha as <-. injection Ha1 as <-. injection Ha3 as <-.
    apply (transform_lt _ (LabelEncoder.np_unique
             (Some <$> (ConlluMapDataset.UPOS_CLASSES
                          ++ [ConlluMapDataset.PAD_TAG]))))
      in Ha0; [|reflexivity].
    apply (transform_lt _ (LabelEncoder.np_unique
             (lcs ++ [Some ConlluMapDataset.PAD_TAG]))) in Ha2; [|reflexivity].
    apply (transform_lt _ (LabelEncoder.np_unique
             (fcs ++ [Some ConlluMapDataset.PAD_TAG]))) in Ha4; [|reflexivity].
    pose proof (length_np_unique_pad lcs).
    pose proof (length_np_unique_pad fcs).
    pose proof (length_first_seen_le lcs).
    pose proof (length_first_seen_le fcs).
    unfold codes_le. repeat split.
    + eapply Forall_impl; [exact Ha0|]. intros c Hc.
      change (c < 19) in Hc. lia.
    + eapply Forall_impl; [exact Ha2|]. intros c Hc. simpl in Hc. lia.
    + eapply Forall_impl; [exact Ha4|]. intros c Hc. simpl in Hc. lia.
  - unfold ConlluMapDataset.__init__ in Hinit. rewrite Htruthy in Hinit.
    injection Hinit as <- <-. done.
Qed.

End Bounds.

Lemma codes_bounded_witness :
  Forall (λ r : SentenceRecord,
            let '(_, u, l, f) := r in
            codes_le 18 u ∧ codes_le 2 l ∧ codes_le 2 f)
    (ConlluMapDataset.data_set Sample.trained).
Proof.
  exact (codes_bounded (H := ascii_lower) (H0 := EditScriptCodec.impl)
           Sample.fs "train.conllu" false "UDTube" Sample.trained
           Sample.trained_fs Sample.fcs Sample.lcs sample_init eq_refl eq_refl).
Defined.

(** ** What construction reads and writes *)

Ltac paths_ne :=
  unfold upos_path, ufeats_path, lemma_path;
  solve [ apply append_ne
        | apply not_eq_sym, append_ne
        | let Heq := fresh in intros Heq; apply append_inj in Heq; discriminate ].

Lemma dump_spec fs enc dir name fs' :
  joblib.dump fs enc dir name = Ok fs' ↔
  fs !! dir = Some Dir
  ∧ fs !! (dir +:+ "/" +:+ name) ≠ Some Dir
  ∧ fs' = <[dir +:+ "/" +:+ name := File (Pickle enc)]> fs.
Proof.
  unfold joblib.dump. destruct (fs !! dir) as [[|c]|].
  - destruct (fs !! (dir +:+ "/" +:+ name)) as [[|c]|].
    + split; [done|]. by intros (_ & Hne & _).
    + split; [by intros [= <-] | by intros (_ & _ & ->)].
    + split; [by intros [= <-] | by intros (_ & _ & ->)].
  - split; [done | by intros ([=] & _)].
  - split; [done | by intros ([=] & _)].
Qed.

Lemma dump_succeeds fs enc dir name :
  fs !! dir = Some Dir →
  fs !! (dir +:+ "/" +:+ name) ≠ Some Dir →
  joblib.dump fs enc dir name
  = Ok (<[dir +:+ "/" +:+ name := File (Pickle enc)]> fs).
Proof. intros Hd Hn. by apply dump_spec. Qed.

Lemma mkdir_spec fs p fs' :
  os.mkdir fs p = Ok fs' ↔ creatable fs p ∧ fs' = <[p := Dir]> fs.
Proof.
  unfold os.mkdir, creatable.
  destruct (String.eqb_spec p "") as [->|Hp].
  { split; [done | by intros [[? _] _]]. }
  destruct (fs !! p) as [node|].
  { split; [done | by intros [(_ & ? & _) _]]. }
  destruct (os.parent p) as [[|c d]|].
  - split; [by intros [= <-] | by intros [_ ->]].
  - destruct (fs !! String c d) as [[|f]|].
    + split; [by intros [= <-] | by intros [_ ->]].
    + split; [done | by intros [(_ & _ & ?) _]].
    + split; [done | by intros [(_ & _ & ?) _]].
  - split; [by intros [= <-] | by intros [_ ->]].
Qed.

Lemma stored_fitted path file rev fcs lcs data fs :
  stored path (fitted path file rev fcs lcs data) fs
  = <[lemma_path path :=
        File (Pickle (LabelEncoder.fit LabelEncoder.new
                        (lcs ++ [Some ConlluMapDataset.PAD_TAG])))]>
      (<[ufeats_path path :=
           File (Pickle (LabelEncoder.fit LabelEncoder.new
                           (fcs ++ [Some ConlluMapDataset.PAD_TAG])))]>
         (<[upos_path path :=
              File (Pickle (LabelEncoder.fit LabelEncoder.new
                              (Some <$> (ConlluMapDataset.UPOS_CLASSES
                                           ++ [ConlluMapDataset.PAD_TAG]))))]>
            (<[path := Dir]> fs))).
Proof. reflexivity. Qed.

(** Outside the namespace and the three encoder paths nothing changes. *)
Lemma stored_frame path ds fs p :
  p ≠ path → p ≠ upos_path path → p ≠ ufeats_path path → p ≠ lemma_path path →
  stored path ds fs !! p = fs !! p.
Proof.
  intros Hp Hu Hf Hl. unfold stored.
  destruct (ConlluMapDataset.upos_encoder ds); [|done].
  destruct (ConlluMapDataset.ufeats_encoder ds); [|done].
  destruct (ConlluMapDataset.lemma_encoder ds); [|done].
  by rewrite !lookup_insert_ne.
Qed.

Section Inversion.
Context `{PyStr} `{EditScripts}.
Import ConlluMapDataset.

Lemma _get_all_classes_read self fs lname classes :
  _get_all_classes self fs lname = Ok classes →
  ∃ dt, read_corpus fs (conllu_file self) = Ok dt.
Proof.
  unfold _get_all_classes, read_corpus. intros Hc.
  apply bind_Ok in Hc as (f & -> & Hc).
  apply bind_Ok in Hc as (dt & Hdt & _). simpl. eauto.
Qed.

Lemma _get_all_classes_feats self fs dt :
  read_corpus fs (conllu_file self) = Ok dt →
  _get_all_classes self fs "feats" = Ok (first_seen (feats <$> all_tokens dt)).
Proof.
  intros Hdt. apply _get_all_classes_first_seen; [done|].
  intros classes tok. unfold _get_all_classes_tok. simpl.
  by destruct (py_in (feats tok) classes).
Qed.

Lemma _get_all_classes_lemma self fs dt :
  read_corpus fs (conllu_file self) = Ok dt →
  _get_all_classes self fs "lemma"
  = Ok (first_seen (lemma_rule (reverse_edits self) <$> all_tokens dt)).
Proof.
  intros Hdt.
  apply (_get_all_classes_first_seen self fs "lemma" dt
           (lemma_rule (reverse_edits self))); [done|].
  intros classes tok. unfold _get_all_classes_tok, lemma_rule, e_script. simpl.
  by destruct (py_in _ classes).
Qed.

(** A successful [_fit_label_encoders], with what it needed and what it
    wrote. *)
Lemma _fit_label_encoders_inv self fs self' fs' :
  _fit_label_encoders self fs = Ok (self', fs') →
  ∃ fcs lcs,
    feats_classes self = Some fcs ∧ lemma_classes self = Some lcs
    ∧ self' = fitted (path_name self) (conllu_file self) (reverse_edits self)
                fcs lcs (data_set self)
    ∧ namespace_writable fs (path_name self)
    ∧ fs' = stored (path_name self) self' fs.
Proof.
  intros Hfit.
  destruct (_fit_label_encoders_Ok _ _ _ _ Hfit)
    as (fcs & lcs & Hfcs & Hlcs & Hself & _).
  exists fcs, lcs. split; [done|]. split; [done|].
  assert (Hself' : self' = fitted (path_name self) (conllu_file self)
                             (reverse_edits self) fcs lcs (data_set self)).
  { rewrite Hself. unfold fitted. by rewrite Hfcs, Hlcs. }
  split; [exact Hself'|].
  unfold _fit_label_encoders in Hfit. inv_bind Hfit.
  apply attr_Ok in Ha1, Ha3. rewrite Hfcs in Ha1. rewrite Hlcs in Ha3.
  injection Ha1 as <-. injection Ha3 as <-.
  apply dump_spec in Ha5 as (Hd1 & Hn1 & ->).
  apply dump_spec in Ha6 as (Hd2 & Hn2 & ->).
  apply dump_spec in Ha7 as (Hd3 & Hn3 & ->).
  injection Hfit as _ <-.
  rewrite lookup_insert_ne in Hn2 by paths_ne.
  rewrite !lookup_insert_ne in Hn3 by paths_ne.
  rewrite Hself', stored_fitted.
  unfold os.path_exists in Ha4.
  destruct (fs !! path_name self) as [node|] eqn:Hpath.
  - rewrite bool_decide_eq_true_2 in Ha4 by eauto. simpl in Ha4.
    injection Ha4 as <-. rewrite Hpath in Hd1. injection Hd1 as ->.
    split.
    + unfold namespace_writable. by eauto.
    + by rewrite (insert_id fs (path_name self) Dir).
  - rewrite bool_decide_eq_false_2 in Ha4 by (by intros [? ?]). simpl in Ha4.
    apply mkdir_spec in Ha4 as [Hmk ->].
    rewrite lookup_insert_ne in Hn1, Hn2, Hn3 by paths_ne.
    split; [|done]. unfold namespace_writable. by eauto.
Qed.

End Inversion.

Lemma elem_of_all_tokens tok dt :
  tok ∈ all_tokens dt ↔ ∃ tk, tk ∈ dt ∧ tok ∈ tokens tk.
Proof.
  unfold all_tokens. induction dt as [|tk dt IH]; simpl.
  - split; [by intros ?%elem_of_nil | by intros (? & ?%elem_of_nil & _)].
  - rewrite elem_of_app, IH. split.
    + intros [Htok | (tk' & Htk' & Htok)].
      * exists tk. split; [by left | done].
      * exists tk'. split; [by right | done].
    + intros (tk' & Htk' & Htok).
      apply elem_of_cons in Htk' as [->|Htk']; [by left | right; eauto].
Qed.

Lemma traverse_all {A B} (g : A → result B) (l : list A) :
  (∀ a, a ∈ l → ∃ b, g a = Ok b) →
  ∃ bs, Forall2 (λ a b, g a = Ok b) l bs.
Proof.
  induction l as [|a l IH]; intros Hall; [by exists []|].
  destruct IH as [bs Hbs].
  { intros a' Ha'. apply Hall. by right. }
  destruct (Hall a) as [b Hb]; [by left|].
  exists (b :: bs). by constructor.
Qed.

Section Building.
Context `{PyStr} `{EditScripts}.
Import ConlluMapDataset.

Lemma _get_all_classes_open self fs fs' lname :
  os.open fs (conllu_file self) = os.open fs' (conllu_file self) →
  _get_all_classes self fs lname = _get_all_classes self fs' lname.
Proof. intros Hopen. unfold _get_all_classes. by rewrite Hopen. Qed.

Lemma lookup_stored_path path ds fs :
  is_Some (upos_encoder ds) → is_Some (ufeats_encoder ds) →
  is_Some (lemma_encoder ds) →
  stored path ds fs !! path = Some Dir
  ∧ stored path ds fs !! upos_path path = File <$> (Pickle <$> upos_encoder ds)
  ∧ stored path ds fs !! ufeats_path path = File <$> (Pickle <$> ufeats_encoder ds)
  ∧ stored path ds fs !! lemma_path path = File <$> (Pickle <$> lemma_encoder ds).
Proof.
  intros [u Hu] [f Hf] [l Hl]. unfold stored. rewrite Hu, Hf, Hl. simpl.
  repeat split.
  - rewrite !lookup_insert_ne by paths_ne. apply lookup_insert_eq.
  - rewrite !lookup_insert_ne by paths_ne. apply lookup_insert_eq.
  - rewrite lookup_insert_ne by paths_ne. apply lookup_insert_eq.
  - apply lookup_insert_eq.
Qed.

(** Reading the corpus file after the encoders were stored: it succeeds
    only for a file apart from the namespace, and then reads what was there
    before. *)
Lemma read_after_stored path ds fs file dt :
  is_Some (upos_encoder ds) → is_Some (ufeats_encoder ds) →
  is_Some (lemma_encoder ds) →
  read_corpus (stored path ds fs) file = Ok dt →
  file ≠ path ∧ apart file path
  ∧ stored path ds fs !! file = fs !! file.
Proof.
  intros Hu Hf Hl Hread.
  destruct (lookup_stored_path path ds fs Hu Hf Hl) as (Hp & Hpu & Hpf & Hpl).
  destruct Hu as [u Hu], Hf as [f Hf], Hl as [l Hl].
  rewrite Hu in Hpu. rewrite Hf in Hpf. rewrite Hl in Hpl. simpl in *.
  unfold read_corpus, os.open in Hread.
  assert (Hne : file ≠ path).
  { intros ->. by rewrite Hp in Hread. }
  assert (Hau : file ≠ upos_path path).
  { intros ->. by rewrite Hpu in Hread. }
  assert (Haf : file ≠ ufeats_path path).
  { intros ->. by rewrite Hpf in Hread. }
  assert (Hal : file ≠ lemma_path path).
  { intros ->. by rewrite Hpl in Hread. }
  split; [done|]. split; [done|]. by apply stored_frame.
Qed.

Lemma read_corpus_lookup fs fs' p :
  fs !! p = fs' !! p → read_corpus fs p = read_corpus fs' p.
Proof. intros Heq. unfold read_corpus, os.open. by rewrite Heq. Qed.

Lemma open_lookup fs fs' p : fs !! p = fs' !! p → os.open fs p = os.open fs' p.
Proof. intros Heq. unfold os.open. by rewrite Heq. Qed.

(** A successful construction from a corpus file, in terms of the file
    system it started from. *)
Lemma __init___inv fs file rev path ds fs' :
  truthy file = true →
  __init__ fs file rev path = Ok (ds, fs') →
  ∃ dt,
    read_corpus fs file = Ok dt
    ∧ ds = fitted path file rev (first_seen (feats <$> all_tokens dt))
             (first_seen (lemma_rule rev <$> all_tokens dt)) (data_set ds)
    ∧ fs' = stored path ds fs
    ∧ namespace_writable fs path
    ∧ file ≠ path ∧ apart file path
    ∧ fs' !! file = fs !! file
    ∧ Forall2 (λ tk r, _get_data_sentence ds tk = Ok r) dt (data_set ds).
Proof.
  intros Htruthy Hinit.
  destruct (__init___Ok _ _ _ _ _ _ Htruthy Hinit)
    as (fcs0 & lcs0 & dt' & _ & _ & Hds0 & Hread' & Hrs & _).
  unfold __init__ in Hinit. rewrite Htruthy in Hinit.
  apply bind_Ok in Hinit as (fcs & Hfcs & Hinit).
  apply bind_Ok in Hinit as (lcs & Hlcs & Hinit).
  apply bind_Ok in Hinit as ([self3 fs3] & Hfit & Hinit).
  apply bind_Ok in Hinit as (data & Hdata & Hinit).
  injection Hinit as <- <-.
  destruct (_get_all_classes_read _ _ _ _ Hfcs) as [dt Hread]. simpl in Hread.
  rewrite (_get_all_classes_feats _ _ dt) in Hfcs by done.
  rewrite (_get_all_classes_lemma _ _ dt) in Hlcs by done.
  injection Hfcs as <-. injection Hlcs as <-. simpl in *.
  apply _fit_label_encoders_inv in Hfit
    as (fcs' & lcs' & [= <-] & [= <-] & -> & Hwr & ->).
  simpl in *.
  set (ds := fitted path file rev (first_seen (feats <$> all_tokens dt))
               (first_seen (lemma_rule rev <$> all_tokens dt)) data).
  assert (Hstored : stored path
            (fitted path file rev (first_seen (feats <$> all_tokens dt))
               (first_seen (lemma_rule rev <$> all_tokens dt)) []) fs
          = stored path ds fs) by reflexivity.
  rewrite Hstored in Hread' |- *.
  destruct (read_after_stored path ds fs file dt') as (Hne & Hapart & Hsame);
    [by eexists.. | done |].
  rewrite (read_corpus_lookup _ fs) in Hread' by done.
  assert (dt' = dt) as -> by congruence.
  exists dt. split; [done|]. split; [reflexivity|]. split; [reflexivity|].
  split; [done|]. split; [done|]. split; [done|]. split; [exact Hsame|].
  exact Hrs.
Qed.

(** With encoders fitted on the classes of a corpus, a sentence of the
    corpus that has a text and UPOS labels of the closed list is encoded:
    its feats and its lemma rules are among the classes. *)
Lemma _get_data_sentence_succeeds path file rev data dt tk :
  tk ∈ dt →
  is_Some (metadata_text tk) →
  (∀ tok, tok ∈ tokens tk → upos tok ∈ UPOS_CLASSES ∨ upos tok = PAD_TAG) →
  ∃ r, _get_data_sentence
         (fitted path file rev (first_seen (feats <$> all_tokens dt))
            (first_seen (lemma_rule rev <$> all_tokens dt)) data) tk = Ok r.
Proof.
  intros Htk [text Htext] Hupos.
  set (fcs := first_seen (feats <$> all_tokens dt)).
  set (lcs := first_seen (lemma_rule rev <$> all_tokens dt)).
  unfold _get_data_sentence, metadata_getitem_text.
  rewrite _get_data_tok_fold, Htext. simpl.
  assert (Htoks : ∀ tok, tok ∈ tokens tk → tok ∈ all_tokens dt).
  { intros tok Htok. apply elem_of_all_tokens. eauto. }
  destruct (transform_succeeds
              (LabelEncoder.fit LabelEncoder.new
                 (Some <$> (UPOS_CLASSES ++ [PAD_TAG])))
              _ ((λ tok, Some (upos tok)) <$> tokens tk) eq_refl) as [u Hu].
  { intros v Hv. apply list_elem_of_fmap in Hv as (tok & -> & Htok).
    rewrite elem_of_np_unique. apply list_elem_of_fmap_2.
    rewrite elem_of_app, list_elem_of_singleton. by apply Hupos. }
  destruct (transform_succeeds
              (LabelEncoder.fit LabelEncoder.new (lcs ++ [Some PAD_TAG]))
              _ (lemma_rule rev <$> tokens tk) eq_refl) as [l Hl].
  { intros v Hv. apply list_elem_of_fmap in Hv as (tok & -> & Htok).
    rewrite elem_of_np_unique, elem_of_app. left. subst lcs.
    rewrite elem_of_first_seen. by apply list_elem_of_fmap_2, Htoks. }
  destruct (transform_succeeds
              (LabelEncoder.fit LabelEncoder.new (fcs ++ [Some PAD_TAG]))
              _ (feats <$> tokens tk) eq_refl) as [f' Hf].
  { intros v Hv. apply list_elem_of_fmap in Hv as (tok & -> & Htok).
    rewrite elem_of_np_unique, elem_of_app. left. subst fcs.
    rewrite elem_of_first_seen. by apply list_elem_of_fmap_2, Htoks. }
  unfold lemma_rule in Hl. unfold e_script. simpl in Hu, Hl, Hf |- *.
  rewrite Hu. simpl. rewrite Hl. simpl. rewrite Hf. simpl. eauto.
Qed.

(** What a construction needs of the corpus and of the file system is
    enough for it to succeed. *)
Lemma __init___succeeds fs file rev path dt :
  truthy file = true →
  read_corpus fs file = Ok dt →
  upos_closed dt →
  all_have_text dt →
  namespace_writable fs path →
  apart file path →
  ∃ ds fs', __init__ fs file rev path = Ok (ds, fs').
Proof.
  intros Htruthy Hread Hupos Htext (Hpath & Hnu & Hnf & Hnl) (Hau & Haf & Hal).
  set (fcs := first_seen (feats <$> all_tokens dt)).
  set (lcs := first_seen (lemma_rule rev <$> all_tokens dt)).
  set (self3 := fitted path file rev fcs lcs []).
  assert (Hne : file ≠ path).
  { intros ->. unfold read_corpus, os.open in Hread.
    destruct Hpath as [(_ & Hp & _)|Hp]; by rewrite Hp in Hread. }
  assert (Hsame : stored path self3 fs !! file = fs !! file)
    by (by apply stored_frame).
  assert (Hdata : ∃ data, _get_data self3 (stored path self3 fs) = Ok data).
  { unfold _get_data.
    pose proof Hread as Hread'.
    rewrite <- (read_corpus_lookup _ _ _ Hsame) in Hread'.
    apply read_corpus_Ok in Hread' as (f & Hopen & Hparse).
    simpl. rewrite Hopen. simpl. rewrite Hparse. simpl.
    assert (Hall : ∀ tk, tk ∈ dt → ∃ r, _get_data_sentence self3 tk = Ok r).
    { intros tk Htk. apply _get_data_sentence_succeeds; [done | by apply Htext|].
      intros tok Htok. apply Hupos, elem_of_all_tokens. eauto. }
    destruct (traverse_all _ _ Hall) as [rs Hrs].
    exists rs. apply for_each_collect. by exists rs. }
  destruct Hdata as [data Hdata].
  eexists _, _. unfold __init__. rewrite Htruthy.
  rewrite (_get_all_classes_feats _ _ dt) by done. simpl.
  rewrite (_get_all_classes_lemma _ _ dt) by done. simpl.
  fold fcs lcs.
  assert (Hfit : _fit_label_encoders
            {| path_name := path; conllu_file := file; reverse_edits := rev;
               upos_encoder := Some LabelEncoder.new;
               ufeats_encoder := Some LabelEncoder.new;
               lemma_encoder := Some LabelEncoder.new;
               feats_classes := Some fcs; lemma_classes := Some lcs;
               data_set := [] |} fs
          = Ok (self3, stored path self3 fs)).
  { unfold _fit_label_encoders. simpl.
    assert (Hmk : (if negb (os.path_exists fs path)
                   then os.mkdir fs path else Ok fs) = Ok (<[path := Dir]> fs)).
    { unfold os.path_exists. destruct Hpath as [Hc|Hp].
      - destruct Hc as (Hc1 & Hc2 & Hc3). rewrite Hc2.
        rewrite bool_decide_eq_false_2 by (by intros [? ?]). simpl.
        by apply mkdir_spec.
      - rewrite Hp, bool_decide_eq_true_2 by eauto. simpl.
        by rewrite insert_id. }
    rewrite Hmk. simpl.
    rewrite dump_succeeds; [simpl| |].
    2:{ apply lookup_insert_eq. }
    2:{ fold (upos_path path). by rewrite lookup_insert_ne by paths_ne. }
    rewrite dump_succeeds; [simpl| |].
    2:{ rewrite lookup_insert_ne by paths_ne. apply lookup_insert_eq. }
    2:{ fold (ufeats_path path) (upos_path path).
        by rewrite !lookup_insert_ne by paths_ne. }
    rewrite dump_succeeds; [simpl| |].
    2:{ rewrite !lookup_insert_ne by paths_ne. apply lookup_insert_eq. }
    2:{ fold (lemma_path path) (ufeats_path path) (upos_path path).
        by rewrite !lookup_insert_ne by paths_ne. }
    reflexivity. }
  rewrite Hfit. simpl. rewrite Hdata. simpl. reflexivity.
Qed.

End Building.

Lemma Forall2_functional {A B} (g : A → result B) l bs bs' :
  Forall2 (λ a b, g a = Ok b) l bs →
  Forall2 (λ a b, g a = Ok b) l bs' →
  bs = bs'.
Proof.
  intros Hbs. revert bs'. induction Hbs as [|a b l bs Hb _ IH]; intros bs' Hbs'.
  - by apply Forall2_nil_inv_l in Hbs'.
  - apply Forall2_cons_inv_l in Hbs' as (b' & bs'' & Hb' & Hbs'' & ->).
    f_equal; [congruence | by apply IH].
Qed.

Lemma stored_stored path ds fs :
  stored path ds (stored path ds fs) = stored path ds fs.
Proof.
  unfold stored.
  destruct (ConlluMapDataset.upos_encoder ds); [|done].
  destruct (ConlluMapDataset.ufeats_encoder ds); [|done].
  destruct (ConlluMapDataset.lemma_encoder ds); [|done].
  apply map_eq. intros k. rewrite !lookup_insert.
  repeat case_decide; done.
Qed.

Section Constructed.
Context `{PyStr} `{EditScripts}.
Import ConlluMapDataset.

(** A sentence that is encoded has a text and its UPOS labels in the
    closed list. *)
Lemma _get_data_sentence_upos path file rev fcs lcs data tk r :
  _get_data_sentence (fitted path file rev fcs lcs data) tk = Ok r →
  is_Some (metadata_text tk)
  ∧ ∀ tok, tok ∈ tokens tk → upos tok ∈ UPOS_CLASSES ∨ upos tok = PAD_TAG.
Proof.
  unfold _get_data_sentence, metadata_getitem_text. rewrite _get_data_tok_fold.
  destruct (metadata_text tk) as [text|]; [|done]. simpl.
  intros Hr. split; [by eexists|]. intros tok Htok.
  apply bind_Ok in Hr as (codes & Hcodes & _).
  assert (Hin : Some (upos tok) ∈
            LabelEncoder.np_unique (Some <$> (UPOS_CLASSES ++ [PAD_TAG]))).
  { eapply (transform_elem
              (LabelEncoder.fit LabelEncoder.new
                 (Some <$> (UPOS_CLASSES ++ [PAD_TAG]))));
      [reflexivity | exact Hcodes |].
    by apply (list_elem_of_fmap_2 (λ tok, Some (upos tok))). }
  rewrite elem_of_np_unique in Hin.
  apply list_elem_of_fmap in Hin as (u & [= ->] & Hu).
  by rewrite elem_of_app, list_elem_of_singleton in Hu.
Qed.

Lemma __init___upos_closed fs file rev path ds fs' dt :
  truthy file = true →
  __init__ fs file rev path = Ok (ds, fs') →
  read_corpus fs file = Ok dt →
  upos_closed dt ∧ all_have_text dt.
Proof.
  intros Htruthy Hinit Hread.
  apply __init___inv in Hinit
    as (dt' & Hread' & Hds & _ & _ & _ & _ & _ & Hrs); [|done].
  assert (dt' = dt) as -> by congruence.
  split.
  - intros tok Htok. apply elem_of_all_tokens in Htok as (tk & Htk & Htok).
    apply list_elem_of_lookup in Htk as [i Hi].
    destruct (Forall2_lookup_l _ _ _ _ _ Hrs Hi) as (r & _ & Hr).
    rewrite Hds in Hr. by eapply _get_data_sentence_upos.
  - intros tk Htk. apply list_elem_of_lookup in Htk as [i Hi].
    destruct (Forall2_lookup_l _ _ _ _ _ Hrs Hi) as (r & _ & Hr).
    rewrite Hds in Hr. by eapply _get_data_sentence_upos.
Qed.

(** X4. What a construction from a corpus file needs. When it succeeds,
    the file read as a corpus in which every sentence has a text and every
    UPOS label is in the closed list (or is the pad tag); the namespace
    path was a directory, or it was not empty and free and the directory
    it is made in existed; none of the three encoder paths was a
    directory; and the corpus file is not one of the encoder paths. Feats
    and lemma rules never make it fail: with the encoders fitted on a
    corpus, every sentence of the corpus that has a text and UPOS labels
    of the closed list is encoded. *)
Theorem construction_needs :
  (∀ fs file rev path ds fs',
     truthy file = true →
     __init__ fs file rev path = Ok (ds, fs') →
     (∃ dt, read_corpus fs file = Ok dt ∧ upos_closed dt ∧ all_have_text dt)
     ∧ namespace_writable fs path
     ∧ apart file path)
  ∧ (∀ path file rev data dt tk,
       tk ∈ dt →
       is_Some (metadata_text tk) →
       (∀ tok, tok ∈ tokens tk → upos tok ∈ UPOS_CLASSES ∨ upos tok = PAD_TAG) →
       is_ok (_get_data_sentence
                (fitted path file rev (first_seen (feats <$> all_tokens dt))
                   (first_seen (lemma_rule rev <$> all_tokens dt)) data) tk)
       = true).
Proof.
  split.
  - intros fs file rev path ds fs' Htruthy Hinit.
    destruct (__init___inv _ _ _ _ _ _ Htruthy Hinit)
      as (dt & Hread & _ & _ & Hwr & _ & Hapart & _).
    split; [|done]. exists dt. split; [done|].
    by eapply __init___upos_closed.
  - intros path file rev data dt tk Htk Htext Hupos.
    destruct (_get_data_sentence_succeeds path file rev data dt tk Htk Htext Hupos)
      as [r ->]. done.
Qed.


(** X6. A dataset constructed from a corpus file has one record per
    sentence of the corpus, and the record at index i is what the
    per-sentence code gives for the i-th sentence with the dataset's
    encoders. *)
Theorem construction_content fs file rev path ds fs' :
  truthy file = true →
  __init__ fs file rev path = Ok (ds, fs') →
  ∃ dt,
    read_corpus fs file = Ok dt
    ∧ __len__ ds = length dt
    ∧ ∀ (i : nat) tk,
        dt !! i = Some tk →
        _get_data_sentence ds tk = __getitem__ ds (Z.of_nat i).
Proof.
  intros Htruthy Hinit.
  destruct (__init___inv _ _ _ _ _ _ Htruthy Hinit)
    as (dt & Hread & _ & _ & _ & _ & _ & _ & Hrs).
  exists dt. split; [done|]. split.
  - unfold __len__. symmetry. by eapply Forall2_length.
  - intros i tk Hi.
    destruct (Forall2_lookup_l _ _ _ _ _ Hrs Hi) as (r & Hr & Htk).
    by rewrite getitem_of_nat, Hr.
Qed.

(** X7. Construction is repeatable: constructing again with the same
    arguments on the file system a successful construction left gives the
    same dataset and leaves the file system as it is. *)
Theorem construction_idempotent fs file rev path ds fs' :
  __init__ fs file rev path = Ok (ds, fs') →
  __init__ fs' file rev path = Ok (ds, fs').
Proof.
  intros Hinit. destruct (truthy file) eqn:Htruthy.
  - destruct (__init___inv _ _ _ _ _ _ Htruthy Hinit)
      as (dt & Hread & Hds & Hfs & Hwr & Hne & Hapart & Hfile & Hrs).
    destruct (__init___upos_closed _ _ _ _ _ _ _ Htruthy Hinit Hread)
      as [Hupos Htext].
    assert (Hsome : is_Some (upos_encoder ds) ∧ is_Some (ufeats_encoder ds)
                    ∧ is_Some (lemma_encoder ds)).
    { rewrite Hds. simpl. by eauto. }
    destruct Hsome as (Hsu & Hsf & Hsl).
    destruct (lookup_stored_path path ds fs Hsu Hsf Hsl) as (Hp & Hpu & Hpf & Hpl).
    rewrite <- Hfs in Hp, Hpu, Hpf, Hpl.
    assert (Hread' : read_corpus fs' file = Ok dt).
    { by rewrite (read_corpus_lookup _ fs). }
    destruct (__init___succeeds fs' file rev path dt) as (ds2 & fs2 & Hinit2);
      try done.
    { destruct Hsu as [u Hu], Hsf as [f Hf], Hsl as [l Hl].
      rewrite Hu in Hpu. rewrite Hf in Hpf. rewrite Hl in Hpl.
      unfold namespace_writable. rewrite Hp, Hpu, Hpf, Hpl. simpl.
      split; [by right|]. done. }
    rewrite Hinit2.
    destruct (__init___inv _ _ _ _ _ _ Htruthy Hinit2)
      as (dt2 & Hread2 & Hds2 & Hfs2 & _ & _ & _ & _ & Hrs2).
    assert (dt2 = dt) as -> by congruence.
    assert (Hdata : data_set ds2 = data_set ds).
    { eapply Forall2_functional; [exact Hrs2|].
      eapply Forall2_impl; [exact Hrs|]. intros tk r Hr.
      rewrite Hds2. by rewrite Hds in Hr. }
    assert (ds2 = ds) as -> by (rewrite Hds2, Hds, Hdata; done).
    by rewrite Hfs2, Hfs, stored_stored.
  - unfold __init__ in *. rewrite Htruthy in *. by injection Hinit as <- <-.
Qed.

End Constructed.

Lemma construction_needs_witness :
  (truthy "train.conllu" = true
   ∧ (∃ dt, read_corpus Sample.fs "train.conllu" = Ok dt
            ∧ upos_closed dt ∧ all_have_text dt)
   ∧ namespace_writable Sample.fs "UDTube"
   ∧ apart "train.conllu" "UDTube")
  ∧ is_ok (ConlluMapDataset._get_data_sentence (H := ascii_lower)
             (H0 := EditScriptCodec.impl) Sample.trained
             {| metadata_text := Some "Running fast";
                tokens := [Sample.running; Sample.fast] |}) = true.
Proof.
  destruct (construction_needs (H := ascii_lower) (H0 := EditScriptCodec.impl))
    as [Hneeds Henc].
  split.
  - split; [reflexivity|].
    exact (Hneeds Sample.fs "train.conllu" false "UDTube" Sample.trained
             Sample.trained_fs eq_refl sample_init).
  - apply (Henc "UDTube" "train.conllu" false Sample.data Sample.corpus).
    + apply list_elem_of_singleton. reflexivity.
    + by eexists.
    + intros tok Htok. left.
      apply elem_of_cons in Htok as [->|Htok].
      { apply list_elem_of_In. simpl. tauto. }
      apply list_elem_of_singleton in Htok as ->.
      apply list_elem_of_In. simpl. tauto.
Defined.


Lemma construction_content_witness :
  ∃ dt,
    read_corpus Sample.fs "train.conllu" = Ok dt
    ∧ ConlluMapDataset.__len__ Sample.trained = length dt.
Proof.
  destruct (construction_content (H := ascii_lower) (H0 := EditScriptCodec.impl)
              Sample.fs "train.conllu" false "UDTube" Sample.trained
              Sample.trained_fs eq_refl sample_init)
    as (dt & Hread & Hlen & _).
  exists dt. by split.
Defined.

Lemma construction_idempotent_witness :
  ConlluMapDataset.__init__ (H := ascii_lower) (H0 := EditScriptCodec.impl)
    Sample.trained_fs "train.conllu" false "UDTube"
  = Ok (Sample.trained, Sample.trained_fs).
Proof.
  exact (construction_idempotent (H := ascii_lower) (H0 := EditScriptCodec.impl)
           Sample.fs "train.conllu" false "UDTube" Sample.trained
           Sample.trained_fs sample_init).
Defined.

(** ** Iterating a ConlluIterDataset *)
(** ** Iterating a ConlluIterDataset *)

Section Iterating.
Context `{PyStr} `{EditScripts}.
Import ConlluIterDataset.

Lemma _generator_stops self dt recs e :
  _generator self dt = (recs, e) →
  Forall2 (λ tk r, _generator_sentence self tk = Ok r) (take (length recs) dt) recs
  ∧ match e with
    | None => length recs = length dt
    | Some err =>
        ∃ tk, dt !! length recs = Some tk
              ∧ _generator_sentence self tk = Raise err
    end.
Proof.
  revert recs e. induction dt as [|tk dt IH]; intros recs e; simpl.
  - intros [= <- <-]. split; [constructor | done].
  - destruct (_generator_sentence self tk) as [r|err] eqn:Hr.
    + destruct (_generator self dt) as [rs e'] eqn:Hgen.
      intros [= <- <-]. destruct (IH rs e' eq_refl) as [Hrs He]. simpl.
      split; [by constructor|].
      destruct e' as [err|]; [done | by rewrite He].
    + intros [= <- <-]. simpl. split; [constructor|]. by exists tk.
Qed.

(** A freshly constructed instance holds the file it was given, opened. *)
Lemma __init___conllu_file fs file rev path self :
  truthy file = true →
  __init__ fs file rev path = Ok self →
  ∃ f, os.open fs file = Ok f ∧ conllu_file self = Some f.
Proof.
  intros Htruthy. unfold __init__. rewrite Htruthy. intros Hinit.
  apply bind_Ok in Hinit as (f & Hf & Hinit).
  apply bind_Ok in Hf as (h & Hh & [= <-]).
  apply bind_Ok in Hinit as ([[u uf] l] & _ & [= <-]).
  by exists h.
Qed.

(** X8. The first loop over a freshly constructed [ConlluIterDataset]
    yields the records of the sentences of its corpus file in corpus order
    up to the first sentence that cannot be encoded; the loop then ends
    with that sentence's exception and yields no later sentence. When no
    sentence fails, there is one record per sentence and no exception. *)
Theorem iteration_stops_at_first_failure fs file rev path self dt recs e :
  truthy file = true →
  __init__ fs file rev path = Ok self →
  read_corpus fs file = Ok dt →
  __iter__ self = Ok (recs, e) →
  Forall2 (λ tk r, _generator_sentence self tk = Ok r) (take (length recs) dt) recs
  ∧ match e with
    | None => length recs = length dt
    | Some err =>
        ∃ tk, dt !! length recs = Some tk
              ∧ _generator_sentence self tk = Raise err
    end.
Proof.
  intros Htruthy Hinit Hread.
  destruct (__init___conllu_file _ _ _ _ _ Htruthy Hinit) as (f & Hopen & Hf).
  unfold read_corpus in Hread. rewrite Hopen in Hread. simpl in Hread.
  unfold __iter__. rewrite Hf. simpl. rewrite Hread.
  intros [= Hgen]. by apply _generator_stops.
Qed.

(** X9. Constructing a [ConlluIterDataset] with an empty file name opens
    nothing and, when it succeeds, gives an instance without a corpus:
    [__iter__] on it raises [AttributeError]. *)
Theorem streaming_empty_file fs rev path it :
  __init__ fs "" rev path = Ok it →
  conllu_file it = None ∧ __iter__ it = Raise AttributeError.
Proof.
  unfold __init__. simpl. intros Hinit.
  apply bind_Ok in Hinit as ([[u uf] l] & _ & [= <-]).
  by split.
Qed.

End Iterating.

Lemma sample_dev_init :
  ConlluIterDataset.__init__ Sample2.dev_fs "dev.conllu" false "UDTube"
  = Ok Sample2.dev.
Proof. vm_compute. reflexivity. Qed.

Lemma sample_dev_iter :
  ConlluIterDataset.__iter__ (H := ascii_lower) (H0 := EditScriptCodec.impl)
    Sample2.dev
  = Ok ([("Running fast", [15; 2], [0; 1], [1; 0])], Some ValueError).
Proof. vm_compute. reflexivity. Qed.

Lemma iteration_stops_at_first_failure_witness :
  ∃ tk,
    Sample2.dev_corpus !! 1 = Some tk
    ∧ ConlluIterDataset._generator_sentence (H := ascii_lower)
        (H0 := EditScriptCodec.impl) Sample2.dev tk = Raise ValueError.
Proof.
  exact (proj2 (iteration_stops_at_first_failure (H := ascii_lower)
                  (H0 := EditScriptCodec.impl) Sample2.dev_fs "dev.conllu"
                  false "UDTube" Sample2.dev Sample2.dev_corpus _ _
                  eq_refl sample_dev_init eq_refl sample_dev_iter)).
Defined.

Lemma sample_streaming_empty :
  ConlluIterDataset.__init__ Sample.trained_fs "" false "UDTube"
  = Ok {| ConlluIterDataset.conllu_file := None;
          ConlluIterDataset.upos_encoder :=
            ConlluMapDataset.upos_encoder Sample.trained;
          ConlluIterDataset.ufeats_encoder :=
            ConlluMapDataset.ufeats_encoder Sample.trained;
          ConlluIterDataset.lemma_encoder :=
            ConlluMapDataset.lemma_encoder Sample.trained;
          ConlluIterDataset.reverse_edits := false |}.
Proof. vm_compute. reflexivity. Qed.

Lemma streaming_empty_file_witness :
  ∃ it,
    ConlluIterDataset.__init__ Sample.trained_fs "" false "UDTube" = Ok it
    ∧ ConlluIterDataset.__iter__ (H := ascii_lower) (H0 := EditScriptCodec.impl) it
      = Raise AttributeError.
Proof.
  eexists. split; [exact sample_streaming_empty|].
  exact (proj2 (streaming_empty_file (H := ascii_lower)
                  (H0 := EditScriptCodec.impl) Sample.trained_fs false "UDTube"
                  _ sample_streaming_empty)).
Defined.

(** ** Reading a TextIterDataset *)

Section TextReading.
Import TextIterDataset.

Lemma consume_open lines n :
  consume n {| tf := Some {| unread := lines; closed := false |} |}
  = (take n lines,
     if decide (n ≤ length lines) then None else Some StopIteration,
     {| tf := Some {| unread := drop n lines; closed := false |} |}).
Proof.
  revert lines. induction n as [|n IH]; intros lines.
  - simpl. by rewrite drop_0.
  - destruct lines as [|line lines].
    + simpl. done.
    + cbn [consume __next__ tf closed unread]. rewrite IH. simpl.
      destruct (decide (n ≤ length lines)), (decide (S n ≤ S (length lines)));
        done || lia.
Qed.

(** X10. A [TextIterDataset] built on a text file yields the lines of the
    file in order, and all loops over it read from the one open file: a
    loop left after n lines has read the first n lines, a later loop goes
    on with the lines after them, and once the file is exhausted every loop
    stops at once without a line. *)
Theorem text_lines_single_pass fs text_file lines self (n m : nat) :
  truthy text_file = true →
  fs !! text_file = Some (TextFile lines) →
  __init__ fs text_file = Ok self →
  ∃ self' self'',
    consume n self
    = (take n lines,
       if decide (n ≤ length lines) then None else Some StopIteration, self')
    ∧ consume m self'
      = (take m (drop n lines),
         if decide (m ≤ length (drop n lines)) then None else Some StopIteration,
         self'')
    ∧ (length lines ≤ n → consume (S m) self' = ([], Some StopIteration, self')).
Proof.
  intros Htruthy Hfile. unfold __init__, open. rewrite Htruthy, Hfile. simpl.
  intros [= <-]. eexists _, _. rewrite !consume_open.
  split; [reflexivity|]. split; [reflexivity|].
  intros Hn. rewrite drop_ge by done. simpl. done.
Qed.

(** X11. [__del__] closes the file of a [TextIterDataset]: afterwards
    every attempt to read a line raises [ValueError] and reads nothing,
    however many lines were left, and a second [__del__] changes nothing.
    On an instance built with an empty file name, which has no file,
    [__del__] does nothing and [__iter__] raises [AttributeError]. *)
Theorem text_del_closes fs text_file self (n : nat) :
  __init__ fs text_file = Ok self →
  __del__ (__del__ self) = __del__ self
  ∧ (truthy text_file = true →
       consume (S n) (__del__ self) = ([], Some (Raised ValueError), __del__ self))
  ∧ (truthy text_file = false →
       __del__ self = self ∧ __iter__ self = Raise AttributeError).
Proof.
  unfold __init__. destruct (truthy text_file).
  - intros Hinit. apply bind_Ok in Hinit as (f & _ & [= <-]).
    split; [done|]. split; [done|]. done.
  - intros [= <-]. split; [done|]. split; [done|]. done.
Qed.

End TextReading.

Lemma sample_text_init :
  TextIterDataset.__init__ Sample2.text_fs "input.txt"
  = Ok {| TextIterDataset.tf :=
            Some {| TextIterDataset.unread := ["Running fast"; "Run faster"];
                    TextIterDataset.closed := false |} |}.
Proof. vm_compute. reflexivity. Qed.

Lemma text_lines_single_pass_witness :
  ∃ self' self'',
    TextIterDataset.consume 1
      {| TextIterDataset.tf :=
           Some {| TextIterDataset.unread := ["Running fast"; "Run faster"];
                   TextIterDataset.closed := false |} |}
    = (["Running fast"], None, self')
    ∧ TextIterDataset.consume 5 self'
      = (["Run faster"], Some TextIterDataset.StopIteration, self'').
Proof.
  destruct (text_lines_single_pass Sample2.text_fs "input.txt"
              ["Running fast"; "Run faster"] _ 1 5 eq_refl eq_refl
              sample_text_init) as (self' & self'' & H1 & H2 & _).
  exists self', self''. split; [exact H1 | exact H2].
Defined.

Lemma text_del_closes_witness :
  TextIterDataset.consume 1
    (TextIterDataset.__del__
       {| TextIterDataset.tf :=
            Some {| TextIterDataset.unread := ["Running fast"; "Run faster"];
                    TextIterDataset.closed := false |} |})
  = ([], Some (TextIterDataset.Raised ValueError),
     TextIterDataset.__del__
       {| TextIterDataset.tf :=
            Some {| TextIterDataset.unread := ["Running fast"; "Run faster"];
                    TextIterDataset.closed := false |} |}).
Proof.
  destruct (text_del_closes Sample2.text_fs "input.txt" _ 0 sample_text_init)
    as (_ & Hclosed & _).
  exact (Hclosed eq_refl).
Defined.

(** ** scripts/remove_mwe.py *)

Lemma list_ascii_of_string_app a b :
  list_ascii_of_string (a +:+ b) = list_ascii_of_string a ++ list_ascii_of_string b.
Proof. induction a as [|c a IH]; simpl; [done|]. f_equal. exact IH. Qed.

Lemma append_assoc_str a b c : (a +:+ b) +:+ c = a +:+ (b +:+ c).
Proof.
  induction a as [|x a IH]; [done|].
  change (String x ((a +:+ b) +:+ c) = String x (a +:+ (b +:+ c))).
  by rewrite IH.
Qed.

Lemma string_of_list_ascii_app l k :
  string_of_list_ascii (l ++ k) = string_of_list_ascii l +:+ string_of_list_ascii k.
Proof. induction l as [|c l IH]; simpl; [done|]. rewrite IH. reflexivity. Qed.

Section RemoveMwe.
Import remove_mwe.

(** Removing a suffix that is there gives the stem. *)
Lemma removesuffix_stem stem suffix :
  suffix ≠ "" → removesuffix (stem +:+ suffix) suffix = stem.
Proof.
  intros Hne. unfold removesuffix.
  rewrite list_ascii_of_string_app, length_app.
  replace (length (list_ascii_of_string stem) + length (list_ascii_of_string suffix)
           - length (list_ascii_of_string suffix))
    with (length (list_ascii_of_string stem)) by lia.
  rewrite drop_app_length, take_app_length.
  rewrite bool_decide_eq_true_2.
  - apply string_of_list_ascii_of_string.
  - split; [|split; [lia | done]].
    intros Hnil. apply Hne.
    rewrite <- (string_of_list_ascii_of_string suffix). by rewrite Hnil.
Qed.

(** What [removesuffix] returns: the string itself, or the stem of a
    string that ends with the suffix. *)
Lemma removesuffix_cases s suffix :
  (removesuffix s suffix = s ∧ (suffix = "" ∨ ∀ stem, s ≠ stem +:+ suffix))
  ∨ (suffix ≠ "" ∧ s = removesuffix s suffix +:+ suffix).
Proof.
  unfold removesuffix.
  set (l := list_ascii_of_string s). set (x := list_ascii_of_string suffix).
  destruct (bool_decide_reflect (x ≠ [] ∧ length x ≤ length l
                                  ∧ drop (length l - length x) l = x))
    as [(Hx & Hlen & Hdrop) | Hno].
  - right. split.
    + intros ->. by apply Hx.
    + rewrite <- (string_of_list_ascii_of_string suffix). fold x.
      rewrite <- string_of_list_ascii_app. rewrite <- Hdrop at 2.
      rewrite take_drop. subst l. by rewrite string_of_list_ascii_of_string.
  - left. split; [done|].
    destruct (decide (suffix = "")) as [|Hne]; [by left | right].
    intros stem ->. apply Hno. subst l x.
    rewrite list_ascii_of_string_app, length_app.
    replace (length (list_ascii_of_string stem)
             + length (list_ascii_of_string suffix)
             - length (list_ascii_of_string suffix))
      with (length (list_ascii_of_string stem)) by lia.
    rewrite drop_app_length. split; [|split; [lia | done]].
    intros Hnil. apply Hne.
    rewrite <- (string_of_list_ascii_of_string suffix). by rewrite Hnil.
Qed.

Lemma sink_name_differs source : sink_name source ≠ source.
Proof.
  unfold sink_name.
  destruct (removesuffix_cases source ".conllu") as [[Hsame _] | [_ Hstem]].
  - rewrite Hsame, append_assoc_str. apply append_ne.
  - intros Heq. rewrite Hstem in Heq at 2.
    rewrite append_assoc_str in Heq. apply append_inj in Heq. discriminate.
Qed.

(** X12. The file [main] writes is never the file it reads: the sink name
    differs from the source name for every source. For a source
    [stem.conllu] it is [stem-no_mwe.conllu]; for a source that does not
    end with [.conllu] it is the source name followed by
    [-no_mwe.conllu]. *)
Theorem sink_name_fresh (source : string) :
  sink_name source ≠ source
  ∧ (∀ stem, source = stem +:+ ".conllu" →
       sink_name source = stem +:+ "-no_mwe.conllu")
  ∧ ((∀ stem, source ≠ stem +:+ ".conllu") →
       sink_name source = source +:+ "-no_mwe.conllu").
Proof.
  split; [apply sink_name_differs|]. unfold sink_name. split.
  - intros stem ->. rewrite removesuffix_stem by done.
    by rewrite append_assoc_str.
  - intros Hno.
    destruct (removesuffix_cases source ".conllu") as [[Hsame _] | [_ Hstem]].
    + by rewrite Hsame, append_assoc_str.
    + by apply Hno in Hstem.
Qed.

(** What a successful [open_w] does: it opens the file the path names, or
    a file that was not there, changes no other file, and no other path. *)
Lemma open_w_Ok fs p i fs1 :
  open_w fs p = Ok (i, fs1) →
  names fs1 !! p = Some i
  ∧ files fs1 = <[i := File (ConlluText [])]> (files fs)
  ∧ (∀ q, q ≠ p → names fs1 !! q = names fs !! q)
  ∧ (names fs !! p = Some i
     ∨ names fs !! p = None ∧ files fs !! i = None).
Proof.
  unfold open_w. intros Hopen.
  destruct (names fs !! p) as [j|] eqn:Hp.
  - destruct (files fs !! j) as [[|c]|] eqn:Hj; [done| |];
      injection Hopen as <- <-; simpl; by eauto.
  - assert (Hfresh : files fs !! fresh (dom (files fs)) = None).
    { apply not_elem_of_dom, is_fresh. }
    destruct (String.eqb p ""); [done|].
    destruct (os.parent p) as [[|c d]|];
      try destruct (lookup_path fs (String c d)) as [[|f]|]; try done;
      injection Hopen as <- <-; simpl;
      (split; [apply lookup_insert_eq|]); (split; [done|]);
      (split; [|by right]); intros q Hq; by apply lookup_insert_ne.
Qed.

Variable is_mwe : Token → bool.

(** What [main] leaves behind, in terms of the file the sink path names
    after it was opened. *)
Lemma main_frame (fs : Linked) (source : string) :
  (main is_mwe fs source).1 = fs
  ∨ ∃ sink,
      names (main is_mwe fs source).1 !! sink_name source = Some sink
      ∧ (names fs !! sink_name source = Some sink
         ∨ names fs !! sink_name source = None ∧ files fs !! sink = None)
      ∧ (∀ q, q ≠ sink_name source →
           names (main is_mwe fs source).1 !! q = names fs !! q)
      ∧ (∀ j, j ≠ sink → files (main is_mwe fs source).1 !! j = files fs !! j).
Proof.
  unfold main. destruct (open_w fs (sink_name source)) as [[sink fs1]|e] eqn:Hopen;
    [|by left].
  right. exists sink.
  apply open_w_Ok in Hopen as (Hsink & Hfiles & Hnames & Hwas).
  destruct (read fs1 source) as [dt|e]; simpl.
  - split; [done|]. split; [done|]. split; [done|].
    intros j Hj. by rewrite Hfiles, !lookup_insert_ne.
  - split; [done|]. split; [done|]. split; [done|].
    intros j Hj. by rewrite Hfiles, lookup_insert_ne.
Qed.


End RemoveMwe.

Lemma sink_name_fresh_witness :
  remove_mwe.sink_name "es.conllu" = "es-no_mwe.conllu"
  ∧ remove_mwe.sink_name "notes" = "notes-no_mwe.conllu".
Proof.
  split.
  - exact (proj1 (proj2 (sink_name_fresh "es.conllu")) "es" eq_refl).
  - apply (proj2 (proj2 (sink_name_fresh "notes"))).
    intros stem Heq. apply (f_equal String.length) in Heq.
    rewrite length_append in Heq. simpl in Heq. lia.
Defined.

